(** * go-reddit: the inbox listing decoder and the id-list message calls

    A shallow embedding of [reddit/message.go].

    - JSON text is represented by the value it spells ([value]); a [[]byte]
      that is handed to the decoder is a [text]: either one JSON value or
      bytes that are not valid JSON (the empty buffer included).
    - [encoding/json] is embedded as far as [message.go] relies on it:
      decoding an object into a struct in place, member by member, with
      case-insensitive member names, ignored unknown members, [null] as a
      no-op on strings, bools and structs, a type mismatch recorded in
      [d.savedError] while decoding goes on, and an error returned by an
      [Unmarshaler] stopping the decode at once.
    - A Go slice keeps the difference between [nil] and an empty slice.
    - The HTTP client is a collaborator: its calls are recorded in a trace. *)

From Stdlib Require Import String Ascii.
From stdpp Require Import base option list strings gmap.

Local Open Scope string_scope.
Local Open Scope list_scope.

(** ** JSON values *)

#[local] Set Warnings "-register-all".

Inductive value : Type :=
| JNull
| JBool (b : bool)
| JNumber (lit : string)
| JString (s : string)
| JArray (elems : list value)
| JObject (members : list (string * value)).

(** A [[]byte] argument of the decoder. [None]: the bytes are not one valid
    JSON value. *)
Definition text : Type := option value.

(** ** Errors *)

Inductive error : Type :=
| SyntaxError
| UnmarshalTypeError (Value : string)
| errorString (s : string).

Definition errors_New (s : string) : error := errorString s.

(** The [Value] of an [UnmarshalTypeError]: the kind of JSON value met. *)
Definition describe (x : value) : string :=
  match x with
  | JNull => "null"
  | JBool _ => "bool"
  | JNumber _ => "number"
  | JString _ => "string"
  | JArray _ => "array"
  | JObject _ => "object"
  end.

(** ** Go slices *)

Inductive slice (A : Type) : Type :=
| Nil
| Make (elems : list A).
Arguments Nil {A}.
Arguments Make {A} elems.

Definition elements {A} (s : slice A) : list A :=
  match s with
  | Nil => []
  | Make l => l
  end.

Definition len {A} (s : slice A) : nat := length (elements s).

Definition append {A} (s : slice A) (x : A) : slice A := Make (elements s ++ [x]).

Definition isNil {A} (s : slice A) : bool :=
  match s with
  | Nil => true
  | Make _ => false
  end.

(** ** The decoder of encoding/json

    A decoding step yields the updated target together with the type error
    it recorded, if any ([inl]), or stops the whole decode with the error of
    an [Unmarshaler] ([inr]). *)

Definition dec (A : Type) : Type := (A * option error) + error.

Definition ret {A} (a : A) : dec A := inl (a, None).

Definition abort {A} (e : error) : dec A := inr e.

(** [d.saveError]: only the first recorded error is kept. *)
Definition saveError (s s' : option error) : option error :=
  match s with
  | Some e => Some e
  | None => s'
  end.

Definition bind {A B} (m : dec A) (f : A -> dec B) : dec B :=
  match m with
  | inr e => inr e
  | inl (a, s) =>
      match f a with
      | inr e => inr e
      | inl (b, s') => inl (b, saveError s s')
      end
  end.

Notation "x <- m ;; k" := (bind m (fun x => k))
  (at level 100, m at next level, right associativity).

(** A JSON value that does not fit the Go type: the target keeps its
    contents and an [UnmarshalTypeError] is recorded. *)
Definition typeError {A} (x : value) (v : A) : dec A :=
  inl (v, Some (UnmarshalTypeError (describe x))).

(** *** Member names

    A member names a field when the two are equal under simple case
    folding. All field names here are ASCII; the runes outside ASCII that
    fold to an ASCII letter are U+212A (Kelvin sign, bytes E2 84 AA) and
    U+017F (long s, bytes C5 BF). Other bytes outside ASCII are kept as
    they are: they never fold into ASCII. *)

Definition upper (c : ascii) : ascii :=
  let n := nat_of_ascii c in
  if (97 <=? n)%nat && (n <=? 122)%nat then ascii_of_nat (n - 32) else c.

Definition byteIs (c : ascii) (n : nat) : bool := (nat_of_ascii c =? n)%nat.

Fixpoint foldName (s : string) : string :=
  match s with
  | EmptyString => EmptyString
  | String c s1 =>
      match s1 with
      | String c1 s2 =>
          if byteIs c 197 && byteIs c1 191 then String "S" (foldName s2)
          else
            match s2 with
            | String c2 s3 =>
                if byteIs c 226 && byteIs c1 132 && byteIs c2 170
                then String "K" (foldName s3)
                else String (upper c) (foldName s1)
            | EmptyString => String (upper c) (foldName s1)
            end
      | EmptyString => String (upper c) EmptyString
      end
  end.

Definition names (key field : string) : bool :=
  String.eqb (foldName key) (foldName field).

(** *** Values into Go types *)

(** A JSON value into a [string] field. *)
Definition stringValue {T} (set : string -> T -> T) (x : value) (v : T) : dec T :=
  match x with
  | JString s => ret (set s v)
  | JNull => ret v
  | _ => typeError x v
  end.

(** A JSON value into a [bool] field. *)
Definition boolValue {T} (set : bool -> T -> T) (x : value) (v : T) : dec T :=
  match x with
  | JBool b => ret (set b v)
  | JNull => ret v
  | _ => typeError x v
  end.

(** [d.object] on a struct: the members are taken in the order of the text;
    [field] stores one member. *)
Fixpoint object {T} (field : string -> value -> T -> dec T)
    (members : list (string * value)) (v : T) : dec T :=
  match members with
  | [] => ret v
  | (key, x) :: rest => v' <- field key x v ;; object field rest v'
  end.

(** A JSON value into a struct, in place. *)
Definition structValue {T} (field : string -> value -> T -> dec T)
    (x : value) (v : T) : dec T :=
  match x with
  | JObject members => object field members v
  | JNull => ret v
  | _ => typeError x v
  end.

(** [d.array] on a slice that has no spare capacity: every element is
    decoded into a zero value and appended. *)
Fixpoint array {T} (elem : value -> T -> dec T) (zero : T)
    (xs : list value) : dec (list T) :=
  match xs with
  | [] => ret []
  | x :: rest => e <- elem x zero ;; l <- array elem zero rest ;; ret (e :: l)
  end.

(** A JSON value into a slice. *)
Definition sliceValue {T} (elem : value -> T -> dec T) (zero : T)
    (x : value) (s : slice T) : dec (slice T) :=
  match x with
  | JArray xs => l <- array elem zero xs ;; ret (Make l)
  | JNull => ret Nil
  | _ => typeError x s
  end.

(** [json.Unmarshal(data, &v)]. The text is checked as a whole before any
    decoding. On success the updated target is returned; on an error the
    callers in [message.go] never read the target again. *)
Definition Unmarshal {T} (decode : value -> T -> dec T) (data : text) (v : T)
    : T + error :=
  match data with
  | None => inr SyntaxError
  | Some x =>
      match decode x v with
      | inr e => inr e
      | inl (_, Some e) => inr e
      | inl (v', None) => inl v'
      end
  end.

(** [json.RawMessage]: the text of a member, kept for later; [nil] until a
    member is stored. *)
Definition RawMessage : Type := text.

(** A timestamp decoder to run the decoder on concrete payloads with: the
    timestamp is the text of a JSON number, anything else is refused. *)
Definition literalTimestamp (data : text) (t : string) : string * option error :=
  match data with
  | Some (JNumber lit) => (lit, None)
  | _ => (t, Some (errorString "timestamp: not a number"))
  end.

(** ** Payloads and a canned client to run the model on *)

Definition comment_c1 : value :=
  JObject [("kind", JString "t1");
           ("data", JObject [("id", JString "c1"); ("was_comment", JBool true)])].

Definition message_m1 : value :=
  JObject [("kind", JString "t4");
           ("data", JObject [("id", JString "m1"); ("was_comment", JBool false)])].

Definition unknown_t9 : value :=
  JObject [("kind", JString "t9"); ("data", JObject [])].

Definition malformed_t1 : value :=
  JObject [("kind", JString "t1"); ("data", JString "not-an-object")].

(** A comment reply whose payload has no was_comment member. *)
Definition comment_without_flag : value :=
  JObject [("kind", JString "t1"); ("data", JObject [("id", JString "c1")])].

(** A private message whose payload says was_comment. *)
Definition message_with_flag : value :=
  JObject [("kind", JString "t4");
           ("data", JObject [("id", JString "m1"); ("was_comment", JBool true)])].

Definition listing (children : value) (after before : string) : value :=
  JObject [("kind", JString "Listing");
           ("data", JObject [("children", children);
                             ("after", JString after);
                             ("before", JString before)])].

(** An envelope without a data member. *)
Definition envelope_without_data : value :=
  JObject [("kind", JString "Listing")].

(** An envelope whose data object has no children member. *)
Definition envelope_without_children : value :=
  JObject [("kind", JString "Listing");
           ("data", JObject [("after", JString "next1"); ("before", JString "")])].

(** An envelope whose children member is null. *)
Definition envelope_null_children : value :=
  JObject [("kind", JString "Listing");
           ("data", JObject [("children", JNull);
                             ("after", JString ""); ("before", JString "")])].

(** An envelope whose children member is a string. *)
Definition envelope_string_children : value :=
  JObject [("kind", JString "Listing");
           ("data", JObject [("children", JString "none")])].

(** A comment reply whose data member is null. *)
Definition comment_null_payload : value :=
  JObject [("kind", JString "t1"); ("data", JNull)].

(** A payload whose id is a number. *)
Definition payload_number_id : value :=
  JObject [("id", JNumber "7"); ("body", JString "hello")].

(** A payload with a creation time. *)
Definition payload_created : value :=
  JObject [("id", JString "m1"); ("name", JString "t4_m1");
           ("created_utc", JNumber "1577836800"); ("body", JString "hello")].

(** An envelope whose after member is null. *)
Definition envelope_null_after : value :=
  JObject [("kind", JString "Listing");
           ("data", JObject [("children", JArray [comment_c1]);
                             ("after", JNull); ("before", JString "")])].

(** A client that builds every request and answers each with one body:
    a request is its path, a response is its body. *)
Definition canned_buildRequest (method path : string)
    (form : option (gmap string (list string))) : string + error := inl path.

Definition canned_sendRequest (body : text) (req : string) : text + error := inl body.

Definition canned_Body (resp : text) : text := resp.

Definition canned_addOptions (path : string) (opts : unit) : string + error := inl path.

(** ** The data model of message.go *)

Section Inbox.

(** [Timestamp] is declared in timestamp.go, which is not among the sources:
    the decoder is stated for any type with a zero value and an
    [UnmarshalJSON] method on its pointer. *)
Variable Timestamp : Type.
Variable Timestamp_zero : Timestamp.
Variable Timestamp_UnmarshalJSON : text -> Timestamp -> Timestamp * option error.

Record Message : Type := mkMessage {
  ID : string;
  FullID : string;
  Created : option Timestamp;
  Subject : string;
  Text : string;
  ParentID : string;
  Author : string;
  To : string;
  IsComment : bool
}.

(** [new(Message)] *)
Definition new_Message : Message :=
  mkMessage "" "" None "" "" "" "" "" false.

Record Messages : Type := mkMessages {
  Messages_Messages : slice Message;
  Messages_After : string;
  Messages_Before : string
}.

Record inboxThings : Type := mkInboxThings {
  inboxThings_Comments : slice Message;
  inboxThings_Messages : slice Message
}.

Record inboxListing : Type := mkInboxListing {
  Things : inboxThings;
  After : string;
  Before : string
}.

Record rootInboxListing : Type := mkRootInboxListing {
  Kind : string;
  Data : inboxListing
}.

(** [new(rootInboxListing)]: both buckets are nil slices. *)
Definition new_rootInboxListing : rootInboxListing :=
  mkRootInboxListing "" (mkInboxListing (mkInboxThings Nil Nil) "" "").

(** Modelled from the spec: the Thing envelope [{kind: string, data:
    opaque-bytes}] and the kind codes "t1" (comment) and "t4" (private
    message); things.go is not among the sources. *)
Record thing : Type := mkThing {
  thing_Kind : string;
  thing_Data : RawMessage
}.

Definition zero_thing : thing := mkThing "" None.

Definition kindComment : string := "t1".
Definition kindMessage : string := "t4".

(** *** Field stores *)

Definition set_ID (s : string) (m : Message) : Message :=
  mkMessage s (FullID m) (Created m) (Subject m) (Text m) (ParentID m) (Author m) (To m) (IsComment m).
Definition set_FullID (s : string) (m : Message) : Message :=
  mkMessage (ID m) s (Created m) (Subject m) (Text m) (ParentID m) (Author m) (To m) (IsComment m).
Definition set_Created (c : option Timestamp) (m : Message) : Message :=
  mkMessage (ID m) (FullID m) c (Subject m) (Text m) (ParentID m) (Author m) (To m) (IsComment m).
Definition set_Subject (s : string) (m : Message) : Message :=
  mkMessage (ID m) (FullID m) (Created m) s (Text m) (ParentID m) (Author m) (To m) (IsComment m).
Definition set_Text (s : string) (m : Message) : Message :=
  mkMessage (ID m) (FullID m) (Created m) (Subject m) s (ParentID m) (Author m) (To m) (IsComment m).
Definition set_ParentID (s : string) (m : Message) : Message :=
  mkMessage (ID m) (FullID m) (Created m) (Subject m) (Text m) s (Author m) (To m) (IsComment m).
Definition set_Author (s : string) (m : Message) : Message :=
  mkMessage (ID m) (FullID m) (Created m) (Subject m) (Text m) (ParentID m) s (To m) (IsComment m).
Definition set_To (s : string) (m : Message) : Message :=
  mkMessage (ID m) (FullID m) (Created m) (Subject m) (Text m) (ParentID m) (Author m) s (IsComment m).
Definition set_IsComment (b : bool) (m : Message) : Message :=
  mkMessage (ID m) (FullID m) (Created m) (Subject m) (Text m) (ParentID m) (Author m) (To m) b.

Definition set_thing_Kind (s : string) (t : thing) : thing := mkThing s (thing_Data t).
Definition set_thing_Data (d : RawMessage) (t : thing) : thing := mkThing (thing_Kind t) d.

Definition set_Comments (s : slice Message) (t : inboxThings) : inboxThings :=
  mkInboxThings s (inboxThings_Messages t).
Definition set_Messages (s : slice Message) (t : inboxThings) : inboxThings :=
  mkInboxThings (inboxThings_Comments t) s.

Definition set_Things (t : inboxThings) (l : inboxListing) : inboxListing :=
  mkInboxListing t (After l) (Before l).
Definition set_After (s : string) (l : inboxListing) : inboxListing :=
  mkInboxListing (Things l) s (Before l).
Definition set_Before (s : string) (l : inboxListing) : inboxListing :=
  mkInboxListing (Things l) (After l) s.

Definition set_Kind (s : string) (r : rootInboxListing) : rootInboxListing :=
  mkRootInboxListing s (Data r).
Definition set_Data (l : inboxListing) (r : rootInboxListing) : rootInboxListing :=
  mkRootInboxListing (Kind r) l.

(** *** encoding/json on the structs, by their [json:"..."] tags *)

(** [Created *Timestamp]: [null] sets the pointer to nil; any other value is
    handed to [Timestamp.UnmarshalJSON], on a fresh [Timestamp] when the
    pointer is nil. *)
Definition createdValue (x : value) (m : Message) : dec Message :=
  match x with
  | JNull => ret (set_Created None m)
  | _ =>
      match Timestamp_UnmarshalJSON (Some x) (default Timestamp_zero (Created m)) with
      | (t, None) => ret (set_Created (Some t) m)
      | (_, Some err) => abort err
      end
  end.

Definition Message_field (key : string) (x : value) (m : Message) : dec Message :=
  if names key "id" then stringValue set_ID x m
  else if names key "name" then stringValue set_FullID x m
  else if names key "created_utc" then createdValue x m
  else if names key "subject" then stringValue set_Subject x m
  else if names key "body" then stringValue set_Text x m
  else if names key "parent_id" then stringValue set_ParentID x m
  else if names key "author" then stringValue set_Author x m
  else if names key "dest" then stringValue set_To x m
  else if names key "was_comment" then boolValue set_IsComment x m
  else ret m.

Definition Message_value : value -> Message -> dec Message :=
  structValue Message_field.

(** [Data json.RawMessage] keeps the text of the member, [null] included. *)
Definition thing_field (key : string) (x : value) (t : thing) : dec thing :=
  if names key "kind" then stringValue set_thing_Kind x t
  else if names key "data" then ret (set_thing_Data (Some x) t)
  else ret t.

Definition thing_value : value -> thing -> dec thing :=
  structValue thing_field.

Definition things_value : value -> slice thing -> dec (slice thing) :=
  sliceValue thing_value zero_thing.

(** ** inboxThings *)

(** [init] initializes or clears the inbox. *)
Definition inboxThings_init (t : inboxThings) : inboxThings :=
  let t := set_Comments (Make []) t in
  let t := set_Messages (Make []) t in
  t.

(** The body of the [for _, thing := range things] loop. *)
Definition route (t : inboxThings) (thing : thing) : inboxThings :=
  if String.eqb (thing_Kind thing) kindComment then
    let v := new_Message in
    match Unmarshal Message_value (thing_Data thing) v with
    | inl v => set_Comments (append (inboxThings_Comments t) v) t
    | inr _ => t
    end
  else if String.eqb (thing_Kind thing) kindMessage then
    let v := new_Message in
    match Unmarshal Message_value (thing_Data thing) v with
    | inl v => set_Messages (append (inboxThings_Messages t) v) t
    | inr _ => t
    end
  else t.

(** [UnmarshalJSON] implements the [json.Unmarshaler] interface: the
    receiver after the call, and the error returned. *)
Definition inboxThings_UnmarshalJSON (b : text) (t : inboxThings)
    : inboxThings * option error :=
  let t := inboxThings_init t in
  match Unmarshal things_value b Nil with
  | inr err => (t, Some err)
  | inl things => (fold_left route (elements things) t, None)
  end.

(** *** The listing envelope *)

(** [Things inboxThings] is an [Unmarshaler]: it is called on the text of
    the member whatever the value, [null] included. *)
Definition inboxListing_field (key : string) (x : value) (l : inboxListing)
    : dec inboxListing :=
  if names key "children" then
    match inboxThings_UnmarshalJSON (Some x) (Things l) with
    | (t, None) => ret (set_Things t l)
    | (_, Some err) => abort err
    end
  else if names key "after" then stringValue set_After x l
  else if names key "before" then stringValue set_Before x l
  else ret l.

Definition rootInboxListing_field (key : string) (x : value) (r : rootInboxListing)
    : dec rootInboxListing :=
  if names key "kind" then stringValue set_Kind x r
  else if names key "data" then
    l <- structValue inboxListing_field x (Data r) ;; ret (set_Data l r)
  else ret r.

Definition rootInboxListing_value : value -> rootInboxListing -> dec rootInboxListing :=
  structValue rootInboxListing_field.

Definition getComments (l : rootInboxListing) : Messages :=
  {| Messages_Messages := inboxThings_Comments (Things (Data l));
     Messages_After := After (Data l);
     Messages_Before := Before (Data l) |}.

Definition getMessages (l : rootInboxListing) : Messages :=
  {| Messages_Messages := inboxThings_Messages (Things (Data l));
     Messages_After := After (Data l);
     Messages_Before := Before (Data l) |}.

(** ** The client

    reddit.go is not among the sources. The requests built, the transport
    and [addOptions] are collaborators; every call to the client is
    recorded in a trace. *)

Variable Request : Type.
Variable Response : Type.
Variable ListOptions : Type.

(** What [http.NewRequest] makes of a method, a path and an optional form. *)
Variable buildRequest : string -> string -> option (gmap string (list string)) -> Request + error.

(** The transport: a response or a transport error, and the body of a
    response as the JSON decoder reads it. *)
Variable sendRequest : Request -> Response + error.
Variable Body : Response -> text.

Variable addOptions : string -> ListOptions -> string + error.

Inductive call : Type :=
| CallNewRequest (method path : string)
| CallNewRequestWithForm (method path : string) (form : gmap string (list string))
| CallDo (req : Request).

Definition client (A : Type) : Type := list call -> A * list call.

Definition MethodGet : string := "GET".
Definition MethodPost : string := "POST".

Definition Client_NewRequest (method path : string) : client (Request + error) :=
  fun tr => (buildRequest method path None, tr ++ [CallNewRequest method path]).

Definition Client_NewRequestWithForm (method path : string)
    (form : gmap string (list string)) : client (Request + error) :=
  fun tr => (buildRequest method path (Some form),
             tr ++ [CallNewRequestWithForm method path form]).

(** Modelled from the spec: [Client.Do] sends the request through the
    transport collaborator and, when a target [v] is given, decodes the raw
    response bytes into it. A transport error is surfaced unchanged and
    decoding is not attempted; a decode error is surfaced to the caller.
    The result is the target after a successful decode, the response and
    the error. *)
Definition Client_Do {T} (decode : value -> T -> dec T) (req : Request) (v : option T)
    : client (option T * option Response * option error) :=
  fun tr =>
    let tr := tr ++ [CallDo req] in
    match sendRequest req with
    | inr err => ((None, None, Some err), tr)
    | inl resp =>
        match v with
        | None => ((None, Some resp, None), tr)
        | Some v =>
            match Unmarshal decode (Body resp) v with
            | inr err => ((None, None, Some err), tr)
            | inl v => ((Some v, Some resp, None), tr)
            end
        end
    end.

(** [Do] with a nil target. *)
Definition Client_Do_nil (req : Request) : client (option Response * option error) :=
  fun tr =>
    match Client_Do (fun (_ : value) (u : unit) => ret u) req None tr with
    | ((_, resp, err), tr) => ((resp, err), tr)
    end.

(** ** MessageService *)

(** [strings.Join] *)
Fixpoint strings_Join (elems : list string) (sep : string) : string :=
  match elems with
  | [] => ""
  | [s] => s
  | s :: rest => s +:+ sep +:+ strings_Join rest sep
  end.

(** [url.Values.Set] *)
Definition Values_Set (key val : string) (form : gmap string (list string))
    : gmap string (list string) :=
  <[key := [val]]> form.

(** The shared body of [Read], [Unread], [Collapse] and [Uncollapse], which
    differ in the path only. *)
Definition postIDs (path : string) (ids : list string)
    : client (option Response * option error) :=
  fun tr =>
    if (length ids =? 0)%nat then
      ((None, Some (errors_New "must provide at least 1 id")), tr)
    else
      let form := (∅ : gmap string (list string)) in
      let form := Values_Set "id" (strings_Join ids ",") form in
      match Client_NewRequestWithForm MethodPost path form tr with
      | (inr err, tr) => ((None, Some err), tr)
      | (inl req, tr) => Client_Do_nil req tr
      end.

(** [Read] marks a message/comment as read via its full ID. *)
Definition MessageService_Read (ids : list string) : client (option Response * option error) :=
  postIDs "api/read_message" ids.

(** [Unread] marks a message/comment as unread via its full ID. *)
Definition MessageService_Unread (ids : list string) : client (option Response * option error) :=
  postIDs "api/unread_message" ids.

(** [Collapse] collapses messages. *)
Definition MessageService_Collapse (ids : list string) : client (option Response * option error) :=
  postIDs "api/collapse_message" ids.

(** [Uncollapse] uncollapses messages. *)
Definition MessageService_Uncollapse (ids : list string) : client (option Response * option error) :=
  postIDs "api/uncollapse_message" ids.

Definition MessageService_inbox (path : string) (opts : ListOptions)
    : client (option rootInboxListing * option Response * option error) :=
  fun tr =>
    match addOptions path opts with
    | inr err => ((None, None, Some err), tr)
    | inl path =>
        match Client_NewRequest MethodGet path tr with
        | (inr err, tr) => ((None, None, Some err), tr)
        | (inl req, tr) =>
            let root := new_rootInboxListing in
            match Client_Do rootInboxListing_value req (Some root) tr with
            | ((_, _, Some err), tr) => ((None, None, Some err), tr)
            | ((root, resp, None), tr) => ((root, resp, None), tr)
            end
        end
    end.

(** [Inbox] returns comments and messages that appear in your inbox,
    respectively. *)
Definition MessageService_Inbox (opts : ListOptions)
    : client (option Messages * option Messages * option Response * option error) :=
  fun tr =>
    match MessageService_inbox "message/inbox" opts tr with
    | ((_, resp, Some err), tr) => ((None, None, resp, Some err), tr)
    | ((root, resp, None), tr) => ((getComments <$> root, getMessages <$> root, resp, None), tr)
    end.

(** ** The other calls of MessageService *)

(** [ReadAll] marks all messages/comments as read. *)
Definition MessageService_ReadAll : client (option Response * option error) :=
  fun tr =>
    let path := "api/read_all_messages" in
    match Client_NewRequest MethodPost path tr with
    | (inr err, tr) => ((None, Some err), tr)
    | (inl req, tr) => Client_Do_nil req tr
    end.

(** [Block] blocks the author of a thing via the thing's full ID. *)
Definition MessageService_Block (id : string) : client (option Response * option error) :=
  fun tr =>
    let path := "api/block" in
    let form := (∅ : gmap string (list string)) in
    let form := Values_Set "id" id form in
    match Client_NewRequestWithForm MethodPost path form tr with
    | (inr err, tr) => ((None, Some err), tr)
    | (inl req, tr) => Client_Do_nil req tr
    end.

(** [Delete] deletes a message. *)
Definition MessageService_Delete (id : string) : client (option Response * option error) :=
  fun tr =>
    let path := "api/del_msg" in
    let form := (∅ : gmap string (list string)) in
    let form := Values_Set "id" id form in
    match Client_NewRequestWithForm MethodPost path form tr with
    | (inr err, tr) => ((None, Some err), tr)
    | (inl req, tr) => Client_Do_nil req tr
    end.

(** [SendMessageRequest] represents a request to send a message. *)
Record SendMessageRequest : Type := mkSendMessageRequest {
  SendMessageRequest_To : string;
  SendMessageRequest_Subject : string;
  SendMessageRequest_Text : string;
  SendMessageRequest_FromSubreddit : string
}.

(** [url.Values.Add] *)
Definition Values_Add (key val : string) (form : gmap string (list string))
    : gmap string (list string) :=
  <[key := default [] (form !! key) ++ [val]]> form.

(** [query.Values] of go-querystring on a [SendMessageRequest], by its
    [url:"..."] tags: the fields are added in their order, and a field
    tagged omitempty is left out when it is the empty string. *)
Definition query_Values (r : SendMessageRequest)
    : gmap string (list string) * option error :=
  let values := (∅ : gmap string (list string)) in
  let values := Values_Add "to" (SendMessageRequest_To r) values in
  let values := Values_Add "subject" (SendMessageRequest_Subject r) values in
  let values := Values_Add "text" (SendMessageRequest_Text r) values in
  let values :=
    if (String.length (SendMessageRequest_FromSubreddit r) =? 0)%nat then values
    else Values_Add "from_sr" (SendMessageRequest_FromSubreddit r) values in
  (values, None).

(** [Send] sends a message. *)
Definition MessageService_Send (sendRequest : option SendMessageRequest)
    : client (option Response * option error) :=
  fun tr =>
    match sendRequest with
    | None => ((None, Some (errors_New "sendRequest: cannot be nil")), tr)
    | Some r =>
        let path := "api/compose" in
        match query_Values r with
        | (_, Some err) => ((None, Some err), tr)
        | (form, None) =>
            let form := Values_Set "api_type" "json" form in
            match Client_NewRequestWithForm MethodPost path form tr with
            | (inr err, tr) => ((None, Some err), tr)
            | (inl req, tr) => Client_Do_nil req tr
            end
        end
    end.

(** [InboxUnread] returns unread comments and messages that appear in your
    inbox, respectively. *)
Definition MessageService_InboxUnread (opts : ListOptions)
    : client (option Messages * option Messages * option Response * option error) :=
  fun tr =>
    match MessageService_inbox "message/unread" opts tr with
    | ((_, resp, Some err), tr) => ((None, None, resp, Some err), tr)
    | ((root, resp, None), tr) => ((getComments <$> root, getMessages <$> root, resp, None), tr)
    end.

(** [Sent] returns messages that you've sent. *)
Definition MessageService_Sent (opts : ListOptions)
    : client (option Messages * option Response * option error) :=
  fun tr =>
    match MessageService_inbox "message/sent" opts tr with
    | ((_, resp, Some err), tr) => ((None, resp, Some err), tr)
    | ((root, resp, None), tr) => ((getMessages <$> root, resp, None), tr)
    end.

(** ** Notions used in the statements *)

(** The item a child of the array contributes to the bucket of kind [k]:
    the child is a Thing of that kind whose payload decodes. *)
Definition validThing (k : string) (th : thing) : option Message :=
  if String.eqb (thing_Kind th) k then
    match Unmarshal Message_value (thing_Data th) new_Message with
    | inl v => Some v
    | inr _ => None
    end
  else None.

Definition thingOf (x : value) : option thing :=
  match thing_value x zero_thing with
  | inl (th, None) => Some th
  | _ => None
  end.

Definition childItem (k : string) (x : value) : option Message :=
  th ← thingOf x; validThing k th.

(** A decoding step that ends in an error, recorded or returned. *)
Definition failed {A} (m : dec A) : Prop :=
  match m with
  | inl (_, None) => False
  | _ => True
  end.

Definition notObjectOrNull (x : value) : bool :=
  match x with
  | JObject _ | JNull => false
  | _ => true
  end.

Definition notArrayOrNull (x : value) : bool :=
  match x with
  | JArray _ | JNull => false
  | _ => true
  end.

(** Both buckets are slices that are not nil. *)
Definition notNil (t : inboxThings) : Prop :=
  isNil (inboxThings_Comments t) = false /\ isNil (inboxThings_Messages t) = false.

(** No member of the list names the field. *)
Definition unnamed (field : string) (members : list (string * value)) : Prop :=
  Forall (fun m => names m.1 field = false) members.

Definition stringOrNull (x : value) : bool :=
  match x with
  | JString _ | JNull => true
  | _ => false
  end.

Definition boolOrNull (x : value) : bool :=
  match x with
  | JBool _ | JNull => true
  | _ => false
  end.

(** A child that decodes as a Thing: null, or an object whose members
    naming kind hold a string or null. *)
Definition thingShaped (c : value) : Prop :=
  match c with
  | JNull => True
  | JObject ms => Forall (fun m => names m.1 "kind" = true -> stringOrNull m.2 = true) ms
  | _ => False
  end.

(** The byte [c] occurs in [s]. *)
Fixpoint contains (c : ascii) (s : string) : bool :=
  match s with
  | EmptyString => false
  | String c' s' => Ascii.eqb c c' || contains c s'
  end.

(** The tags of the string fields of [Message]. *)
Definition stringTags : list string :=
  ["id"; "name"; "subject"; "body"; "parent_id"; "author"; "dest"].

(** The GET request for [path] is built and the transport answers it with
    [resp]. *)
Definition answers (path : string) (opts : ListOptions) (resp : Response) : Prop :=
  exists p req,
    addOptions path opts = inl p /\
    buildRequest MethodGet p None = inl req /\
    sendRequest req = inl resp.

(** What [Do] with a nil target returns for a request: the response or the
    error of the transport. *)
Definition transported (req : Request) : option Response * option error :=
  match sendRequest req with
  | inl resp => (Some resp, None)
  | inr err => (None, Some err)
  end.

(** * Properties *)

(** ** The decoder monad *)

Lemma saveError_None s s' : saveError s s' = None <-> s = None /\ s' = None.
Proof. destruct s; simpl; intuition congruence. Qed.

Lemma bind_ret_l {A B} (a : A) (f : A -> dec B) : bind (ret a) f = f a.
Proof. unfold bind, ret. destruct (f a) as [[b s]|e]; reflexivity. Qed.

Lemma bind_assoc {A B C} (m : dec A) (f : A -> dec B) (g : B -> dec C) :
  bind (bind m f) g = bind m (fun a => bind (f a) g).
Proof.
  destruct m as [[a s]|e]; simpl; [|reflexivity].
  destruct (f a) as [[b s1]|e1]; simpl; [|reflexivity].
  destruct (g b) as [[c s2]|e2]; simpl; [|reflexivity].
  destruct s, s1; reflexivity.
Qed.

Lemma bind_ok {A B} (m : dec A) (f : A -> dec B) b :
  bind m f = inl (b, None) <-> exists a, m = inl (a, None) /\ f a = inl (b, None).
Proof.
  split.
  - destruct m as [[a s]|e]; simpl; [|discriminate].
    destruct (f a) as [[b' s']|e'] eqn:Hf; [|discriminate].
    intros [= -> Hs]. apply saveError_None in Hs as [-> ->]. eauto.
  - intros (a & -> & Hf). simpl. rewrite Hf. reflexivity.
Qed.

Lemma bind_failed_l {A B} (m : dec A) (f : A -> dec B) :
  failed m -> failed (bind m f).
Proof.
  destruct m as [[a [e|]]|e]; simpl; try tauto.
  intros _. destruct (f a) as [[b s']|e']; simpl; exact I.
Qed.

Lemma bind_failed_r {A B} (m : dec A) (f : A -> dec B) :
  (forall a, failed (f a)) -> failed (bind m f).
Proof.
  intros Hf. destruct m as [[a s]|e]; simpl; [|exact I].
  specialize (Hf a). destruct (f a) as [[b [e'|]]|e']; simpl in *; try tauto.
  destruct s; exact I.
Qed.

Lemma Unmarshal_ok {T} (decode : value -> T -> dec T) x v v' :
  Unmarshal decode (Some x) v = inl v' <-> decode x v = inl (v', None).
Proof.
  unfold Unmarshal. destruct (decode x v) as [[u [e|]]|e]; split; congruence.
Qed.

Lemma Unmarshal_failed {T} (decode : value -> T -> dec T) x v :
  failed (decode x v) -> exists err, Unmarshal decode (Some x) v = inr err.
Proof.
  unfold Unmarshal. destruct (decode x v) as [[u [e|]]|e]; simpl; eauto. tauto.
Qed.

(** ** Objects and arrays *)

Lemma object_app {T} (field : string -> value -> T -> dec T) xs ys v :
  object field (xs ++ ys) v = (u <- object field xs v ;; object field ys u).
Proof.
  revert v. induction xs as [|[k x] xs IH]; intros v; simpl.
  - destruct (object field ys v) as [[u [e|]]|e]; reflexivity.
  - rewrite bind_assoc. destruct (field k x v) as [[u s]|e]; simpl; [|reflexivity].
    rewrite IH. reflexivity.
Qed.

Lemma object_ok_cons {T} (field : string -> value -> T -> dec T) k x ms v v' :
  object field ((k, x) :: ms) v = inl (v', None) <->
  exists u, field k x v = inl (u, None) /\ object field ms u = inl (v', None).
Proof. simpl. apply bind_ok. Qed.

Lemma object_ok_app {T} (field : string -> value -> T -> dec T) xs ys v v' :
  object field (xs ++ ys) v = inl (v', None) <->
  exists u, object field xs v = inl (u, None) /\ object field ys u = inl (v', None).
Proof. rewrite object_app. apply bind_ok. Qed.

(** One member that cannot be stored makes the whole object fail. *)
Lemma object_failed {T} (field : string -> value -> T -> dec T) k x ms v :
  (k, x) ∈ ms -> (forall u, failed (field k x u)) -> failed (object field ms v).
Proof.
  intros Hin Hbad. revert v. induction ms as [|[k' x'] ms IH]; intros v.
  - inversion Hin.
  - simpl. apply elem_of_cons in Hin as [[= <- <-]|Hin].
    + apply bind_failed_l, Hbad.
    + apply bind_failed_r. intros u. apply IH, Hin.
Qed.

(** A property of the target kept by every member is kept by the object. *)
Lemma object_preserves {T} (field : string -> value -> T -> dec T) (P : T -> Prop) ms :
  (forall k x v v', (k, x) ∈ ms -> P v -> field k x v = inl (v', None) -> P v') ->
  forall v v', P v -> object field ms v = inl (v', None) -> P v'.
Proof.
  induction ms as [|[k x] ms IH]; intros Hstep v v' HP.
  - simpl. intros [= <-]. exact HP.
  - rewrite object_ok_cons. intros (u & Hu & Hrest).
    apply (IH (fun k' x' w w' Hin => Hstep k' x' w w' (list_elem_of_further _ _ _ Hin)) u v');
      [|exact Hrest].
    apply (Hstep k x v u); [left|exact HP|exact Hu].
Qed.

Lemma array_app {T} (elem : value -> T -> dec T) zero xs ys :
  array elem zero (xs ++ ys) =
  (l1 <- array elem zero xs ;; l2 <- array elem zero ys ;; ret (l1 ++ l2)).
Proof.
  induction xs as [|x xs IH]; simpl.
  - destruct (array elem zero ys) as [[l [e|]]|e]; reflexivity.
  - rewrite IH, !bind_assoc. destruct (elem x zero) as [[a s]|e]; simpl; [|reflexivity].
    f_equal.
    destruct (array elem zero xs) as [[l1 s1]|e1]; simpl; [|reflexivity].
    destruct (array elem zero ys) as [[l2 s2]|e2]; simpl; [|reflexivity].
    destruct s1, s2; reflexivity.
Qed.

Lemma array_ok {T} (elem : value -> T -> dec T) zero xs l :
  array elem zero xs = inl (l, None) <->
  Forall2 (fun x e => elem x zero = inl (e, None)) xs l.
Proof.
  revert l. induction xs as [|x xs IH]; intros l; simpl.
  - split; [intros [= <-]; constructor|inversion 1; reflexivity].
  - rewrite bind_ok. split.
    + intros (e & He & Hrest). apply bind_ok in Hrest as (l' & Hl' & [= <-]).
      constructor; [exact He|]. apply IH, Hl'.
    + inversion 1 as [|? e ? l' He Hl']; subst. exists e. split; [exact He|].
      apply bind_ok. exists l'. split; [apply IH, Hl'|reflexivity].
Qed.

(** ** Member names *)

Lemma names_other key f g :
  names key f = true -> foldName f <> foldName g -> names key g = false.
Proof.
  unfold names. intros Hf%String.eqb_eq Hne. apply String.eqb_neq. congruence.
Qed.

(** ** The routing loop *)

Lemma slice_Make {A} (s : slice A) : isNil s = false -> s = Make (elements s).
Proof. destruct s; [discriminate|reflexivity]. Qed.

Lemma route_Comments t th :
  elements (inboxThings_Comments (route t th)) =
  elements (inboxThings_Comments t) ++ omap (validThing kindComment) [th].
Proof.
  unfold route, validThing. simpl.
  destruct (String.eqb (thing_Kind th) kindComment).
  - destruct (Unmarshal _ _ _); simpl; [reflexivity|]. rewrite app_nil_r. reflexivity.
  - rewrite app_nil_r.
    destruct (String.eqb (thing_Kind th) kindMessage); [|reflexivity].
    destruct (Unmarshal _ _ _); reflexivity.
Qed.

Lemma route_Messages t th :
  elements (inboxThings_Messages (route t th)) =
  elements (inboxThings_Messages t) ++ omap (validThing kindMessage) [th].
Proof.
  unfold route, validThing. simpl.
  destruct (String.eqb (thing_Kind th) kindComment) eqn:Hc.
  - apply String.eqb_eq in Hc. rewrite Hc. simpl. rewrite app_nil_r.
    destruct (Unmarshal _ _ _); reflexivity.
  - destruct (String.eqb (thing_Kind th) kindMessage).
    + destruct (Unmarshal _ _ _); simpl; [reflexivity|]. rewrite app_nil_r. reflexivity.
    + rewrite app_nil_r. reflexivity.
Qed.

Lemma route_notNil t th :
  isNil (inboxThings_Comments t) = false /\ isNil (inboxThings_Messages t) = false ->
  isNil (inboxThings_Comments (route t th)) = false /\
  isNil (inboxThings_Messages (route t th)) = false.
Proof.
  intros [Hc Hm]. unfold route.
  destruct (String.eqb (thing_Kind th) kindComment).
  - destruct (Unmarshal _ _ _); simpl; auto.
  - destruct (String.eqb (thing_Kind th) kindMessage); [|auto].
    destruct (Unmarshal _ _ _); simpl; auto.
Qed.

Lemma omap_cons_app {A B} (f : A -> option B) x l :
  omap f (x :: l) = omap f [x] ++ omap f l.
Proof. simpl. destruct (f x); reflexivity. Qed.

Lemma loop_buckets ths : forall t,
  elements (inboxThings_Comments (fold_left route ths t)) =
    elements (inboxThings_Comments t) ++ omap (validThing kindComment) ths /\
  elements (inboxThings_Messages (fold_left route ths t)) =
    elements (inboxThings_Messages t) ++ omap (validThing kindMessage) ths.
Proof.
  induction ths as [|th ths IH]; intros t.
  - simpl. rewrite !app_nil_r. auto.
  - cbn [fold_left]. destruct (IH (route t th)) as [-> ->].
    rewrite route_Comments, route_Messages, <- !app_assoc.
    rewrite (omap_cons_app _ th ths), (omap_cons_app (validThing kindMessage) th ths).
    auto.
Qed.

Lemma loop_notNil ths : forall t,
  isNil (inboxThings_Comments t) = false /\ isNil (inboxThings_Messages t) = false ->
  isNil (inboxThings_Comments (fold_left route ths t)) = false /\
  isNil (inboxThings_Messages (fold_left route ths t)) = false.
Proof.
  induction ths as [|th ths IH]; intros t Ht; [exact Ht|].
  cbn [fold_left]. apply IH, route_notNil, Ht.
Qed.

(** [UnmarshalJSON] leaves the receiver with two slices that are not nil,
    whether it returns an error or not. *)
Lemma UnmarshalJSON_notNil b t :
  isNil (inboxThings_Comments (inboxThings_UnmarshalJSON b t).1) = false /\
  isNil (inboxThings_Messages (inboxThings_UnmarshalJSON b t).1) = false.
Proof.
  unfold inboxThings_UnmarshalJSON.
  destruct (Unmarshal things_value b Nil) as [things|err]; simpl; [|auto].
  apply loop_notNil. simpl. auto.
Qed.

(** The buckets after a successful [UnmarshalJSON], from the parsed Things. *)
Lemma UnmarshalJSON_things b t things :
  Unmarshal things_value b Nil = inl things ->
  inboxThings_UnmarshalJSON b t =
  (mkInboxThings (Make (omap (validThing kindComment) (elements things)))
                 (Make (omap (validThing kindMessage) (elements things))), None).
Proof.
  intros Hthings.
  pose proof (UnmarshalJSON_notNil b t) as [Hc Hm].
  unfold inboxThings_UnmarshalJSON in *. rewrite Hthings in *. simpl in *.
  f_equal.
  destruct (loop_buckets (elements things) (inboxThings_init t)) as [Ec Em].
  simpl in Ec, Em.
  destruct (fold_left route (elements things) (inboxThings_init t)) as [cs ms].
  simpl in *. rewrite (slice_Make cs Hc), (slice_Make ms Hm), Ec, Em. reflexivity.
Qed.

(** An array of children parses as Things exactly when each child does. *)
Lemma things_parse xs things :
  Unmarshal things_value (Some (JArray xs)) Nil = inl things <->
  exists ths, things = Make ths /\ Forall2 (fun x th => thingOf x = Some th) xs ths.
Proof.
  rewrite Unmarshal_ok. unfold things_value, sliceValue. rewrite bind_ok.
  assert (Hthing : forall x th, thing_value x zero_thing = inl (th, None) <-> thingOf x = Some th).
  { intros x th. unfold thingOf.
    destruct (thing_value x zero_thing) as [[u [e|]]|e]; split; congruence. }
  split.
  - intros (l & Hl & [= <-]). exists l. split; [reflexivity|].
    apply array_ok in Hl. eapply Forall2_impl; [exact Hl|]. intros x th. apply Hthing.
  - intros (ths & -> & Hall). exists ths. split; [|reflexivity].
    apply array_ok. eapply Forall2_impl; [exact Hall|]. intros x th. apply Hthing.
Qed.

Lemma omap_childItem k xs ths :
  Forall2 (fun x th => thingOf x = Some th) xs ths ->
  omap (validThing k) ths = omap (childItem k) xs.
Proof.
  induction 1 as [|x th xs ths Hx _ IH]; [reflexivity|].
  rewrite (omap_cons_app _ th ths), (omap_cons_app _ x xs), IH. f_equal.
  simpl. unfold childItem. rewrite Hx. reflexivity.
Qed.

Lemma UnmarshalJSON_children xs t things :
  Unmarshal things_value (Some (JArray xs)) Nil = inl things ->
  inboxThings_UnmarshalJSON (Some (JArray xs)) t =
  (mkInboxThings (Make (omap (childItem kindComment) xs))
                 (Make (omap (childItem kindMessage) xs)), None).
Proof.
  intros Hparse. rewrite (UnmarshalJSON_things _ _ _ Hparse).
  apply things_parse in Hparse as (ths & -> & Hall). simpl.
  rewrite !(omap_childItem _ _ _ Hall). reflexivity.
Qed.

(** A child that the loop passes over can be taken out of the array. *)
Lemma UnmarshalJSON_drop t pre c post th :
  thingOf c = Some th -> (forall u, route u th = u) ->
  inboxThings_UnmarshalJSON (Some (JArray (pre ++ c :: post))) t =
  inboxThings_UnmarshalJSON (Some (JArray (pre ++ post))) t.
Proof.
  intros Hc Hroute. unfold thingOf in Hc.
  destruct (thing_value c zero_thing) as [[th' [e|]]|e] eqn:Hth; try discriminate.
  injection Hc as ->.
  unfold inboxThings_UnmarshalJSON, Unmarshal, things_value, sliceValue.
  rewrite !array_app. cbn [array]. rewrite Hth.
  destruct (array thing_value zero_thing pre) as [[l1 [e1|]]|e1]; simpl;
    destruct (array thing_value zero_thing post) as [[l2 [e2|]]|e2]; simpl;
    try reflexivity.
  rewrite !fold_left_app. simpl. rewrite Hroute. reflexivity.
Qed.

Lemma length_omap_filter {A B} (f : A -> option B) (l : list A) :
  length (omap f l) = length (filter (fun x => is_Some (f x)) l).
Proof.
  induction l as [|x l IH]; [reflexivity|].
  rewrite omap_cons_app, length_app, IH, filter_cons. simpl.
  destruct (f x) as [y|] eqn:Hf.
  - rewrite decide_True by eauto. reflexivity.
  - rewrite decide_False by (intros [y Hy]; discriminate). reflexivity.
Qed.

(** ** The Thing decoder *)

(** C1. When the children array parses as an array of Things and the data
    payload of one child fails to decode into [Message], that child alone
    is dropped: [UnmarshalJSON] returns no error, its result is the one of
    the same array without that child, and every other child with a valid
    payload appears in the bucket of its kind. *)
Theorem malformed_payload_is_dropped t pre bad post th things :
  Unmarshal things_value (Some (JArray (pre ++ bad :: post))) Nil = inl things ->
  thingOf bad = Some th ->
  (exists err, Unmarshal Message_value (thing_Data th) new_Message = inr err) ->
  let r := inboxThings_UnmarshalJSON (Some (JArray (pre ++ bad :: post))) t in
  r.2 = None /\
  r = inboxThings_UnmarshalJSON (Some (JArray (pre ++ post))) t /\
  (forall x v, x ∈ pre ++ post -> childItem kindComment x = Some v ->
     v ∈ elements (inboxThings_Comments r.1)) /\
  (forall x v, x ∈ pre ++ post -> childItem kindMessage x = Some v ->
     v ∈ elements (inboxThings_Messages r.1)).
Proof.
  intros Hparse Hbad [err Herr] r.
  assert (Hr : r = inboxThings_UnmarshalJSON (Some (JArray (pre ++ post))) t).
  { apply (UnmarshalJSON_drop t pre bad post th Hbad).
    intros u. unfold route. rewrite Herr.
    destruct (String.eqb _ kindComment); [reflexivity|].
    destruct (String.eqb _ kindMessage); reflexivity. }
  assert (Hparse' : exists things',
    Unmarshal things_value (Some (JArray (pre ++ post))) Nil = inl things').
  { apply things_parse in Hparse as (ths & _ & Hall).
    apply Forall2_app_inv_l in Hall as (l1 & l2' & H1 & H2 & _).
    inversion H2 as [|? ? ? l2 _ H2']; subst.
    exists (Make (l1 ++ l2)). apply things_parse. exists (l1 ++ l2).
    split; [reflexivity|]. apply Forall2_app; assumption. }
  destruct Hparse' as [things' Hparse'].
  rewrite Hr, (UnmarshalJSON_children _ t _ Hparse'). simpl.
  repeat split; intros x v Hx Hv; apply list_elem_of_omap; eauto.
Qed.

(** C2. For a payload whose children parse as Things, the bucket of each
    recognized kind holds exactly the items of the children of that kind
    with a valid payload, in the order of the array: its length is the
    number K of such children among the N children. *)
Theorem bucket_is_valid_children_in_order t xs things :
  Unmarshal things_value (Some (JArray xs)) Nil = inl things ->
  let r := inboxThings_UnmarshalJSON (Some (JArray xs)) t in
  r.2 = None /\
  inboxThings_Comments r.1 = Make (omap (childItem kindComment) xs) /\
  inboxThings_Messages r.1 = Make (omap (childItem kindMessage) xs) /\
  len (inboxThings_Comments r.1) =
    length (filter (fun x => is_Some (childItem kindComment x)) xs) /\
  len (inboxThings_Messages r.1) =
    length (filter (fun x => is_Some (childItem kindMessage x)) xs) /\
  len things = length xs.
Proof.
  intros Hparse r. subst r. rewrite (UnmarshalJSON_children _ t _ Hparse). simpl.
  unfold len. simpl. rewrite !length_omap_filter.
  repeat split; try reflexivity.
  apply things_parse in Hparse as (ths & -> & Hall). simpl.
  symmetry. exact (Forall2_length _ _ _ Hall).
Qed.

(** C4. A child whose kind is neither the comment code nor the message code
    is dropped and the other children are decoded as without it: the result
    of [UnmarshalJSON], error included, is the one of the array without
    that child, so the child never makes the batch fail. *)
Theorem unknown_kind_is_dropped t pre c post th :
  thingOf c = Some th ->
  thing_Kind th <> kindComment ->
  thing_Kind th <> kindMessage ->
  inboxThings_UnmarshalJSON (Some (JArray (pre ++ c :: post))) t =
    inboxThings_UnmarshalJSON (Some (JArray (pre ++ post))) t /\
  (forall things,
     Unmarshal things_value (Some (JArray (pre ++ post))) Nil = inl things ->
     (inboxThings_UnmarshalJSON (Some (JArray (pre ++ c :: post))) t).2 = None).
Proof.
  intros Hc Hnc Hnm.
  assert (Heq : inboxThings_UnmarshalJSON (Some (JArray (pre ++ c :: post))) t =
                inboxThings_UnmarshalJSON (Some (JArray (pre ++ post))) t).
  { apply (UnmarshalJSON_drop t pre c post th Hc).
    intros u. unfold route.
    apply String.eqb_neq in Hnc, Hnm. rewrite Hnc, Hnm. reflexivity. }
  split; [exact Heq|].
  intros things Hparse. rewrite Heq, (UnmarshalJSON_children _ t _ Hparse). reflexivity.
Qed.

(** C9. Decoding is a function of the input alone: the receiver's earlier
    contents do not show in the result of [UnmarshalJSON], decoding the same
    input again into the receiver just decoded gives the same result, and
    what [inbox] returns does not depend on the client calls made before. *)
Theorem decoding_is_deterministic b t1 t2 path opts tr1 tr2 :
  inboxThings_UnmarshalJSON b t1 = inboxThings_UnmarshalJSON b t2 /\
  inboxThings_UnmarshalJSON b (inboxThings_UnmarshalJSON b t1).1 =
    inboxThings_UnmarshalJSON b t1 /\
  (MessageService_inbox path opts tr1).1 = (MessageService_inbox path opts tr2).1.
Proof.
  assert (H : forall u1 u2,
    inboxThings_UnmarshalJSON b u1 = inboxThings_UnmarshalJSON b u2).
  { intros u1 u2. unfold inboxThings_UnmarshalJSON, inboxThings_init. reflexivity. }
  repeat split; try apply H.
  unfold MessageService_inbox, Client_NewRequest, Client_Do.
  destruct (addOptions path opts) as [path'|e]; [|reflexivity].
  destruct (buildRequest MethodGet path' None) as [req|e]; [|reflexivity].
  destruct (sendRequest req) as [resp|e]; [|reflexivity].
  destruct (Unmarshal _ (Body resp) _) as [root|e]; reflexivity.
Qed.

(** ** Which member decides a field *)

Section Fields.

Context {T X : Type} (field : string -> value -> T -> dec T) (proj : T -> X) (f : string).

(** Members that do not name [f] leave the projection [proj] alone. *)
Hypothesis frame : forall k x v v',
  names k f = false -> field k x v = inl (v', None) -> proj v' = proj v.

Lemma object_unnamed ms v v' :
  unnamed f ms -> object field ms v = inl (v', None) -> proj v' = proj v.
Proof.
  intros Hun Hobj.
  refine (object_preserves field (fun u => proj u = proj v) ms _ v v' eq_refl Hobj).
  intros k x u u' Hin Hu Hstep. rewrite <- Hu.
  apply (frame k x u u'); [|exact Hstep].
  unfold unnamed in Hun. rewrite Forall_forall in Hun. exact (Hun (k, x) Hin).
Qed.

(** The last member naming [f] decides the projection. *)
Lemma object_last pre k x post v v' c :
  unnamed f post ->
  (forall u u', field k x u = inl (u', None) -> proj u' = c) ->
  object field (pre ++ (k, x) :: post) v = inl (v', None) ->
  proj v' = c.
Proof.
  intros Hun Hset Hobj.
  apply object_ok_app in Hobj as (u & _ & Hobj).
  apply object_ok_cons in Hobj as (u' & Hstep & Hobj).
  rewrite (object_unnamed post u' v' Hun Hobj). exact (Hset u u' Hstep).
Qed.

End Fields.

(** A property set up by one member and kept by all is there at the end. *)
Lemma object_establishes {T} (field : string -> value -> T -> dec T) (P : T -> Prop)
    ms k x v v' :
  (k, x) ∈ ms ->
  (forall u u', field k x u = inl (u', None) -> P u') ->
  (forall k' x' u u', P u -> field k' x' u = inl (u', None) -> P u') ->
  object field ms v = inl (v', None) -> P v'.
Proof.
  intros Hin Hset Hkeep Hobj.
  apply list_elem_of_split in Hin as (pre & post & ->).
  apply object_ok_app in Hobj as (u & _ & Hobj).
  apply object_ok_cons in Hobj as (u' & Hstep & Hobj).
  apply (object_preserves field P post (fun k' x' w w' _ => Hkeep k' x' w w') u' v');
    [|exact Hobj].
  exact (Hset u u' Hstep).
Qed.

Lemma stringValue_ok {T} (set : string -> T -> T) x v v' :
  stringValue set x v = inl (v', None) ->
  v' = v \/ exists s, x = JString s /\ v' = set s v.
Proof. destruct x; simpl; intros [= <-]; eauto. Qed.

Lemma boolValue_ok {T} (set : bool -> T -> T) x v v' :
  boolValue set x v = inl (v', None) ->
  v' = v \/ exists b, x = JBool b /\ v' = set b v.
Proof. destruct x; simpl; intros [= <-]; eauto. Qed.

(** ** The members of a Message *)

Lemma createdValue_ok x m m' :
  createdValue x m = inl (m', None) -> exists c, m' = set_Created c m.
Proof.
  unfold createdValue. destruct x; simpl;
    try (destruct (Timestamp_UnmarshalJSON _ _) as [ts [e|]]; [discriminate|]);
    intros [= <-]; eauto.
Qed.

Lemma Message_field_IsComment k x m m' :
  names k "was_comment" = false ->
  Message_field k x m = inl (m', None) -> IsComment m' = IsComment m.
Proof.
  intros Hk. unfold Message_field. rewrite Hk.
  repeat match goal with
  | |- context [if ?c then _ else _] => destruct c
  end;
  try (intros [-> | (s & _ & ->)]%stringValue_ok; reflexivity);
  try (intros [c ->]%createdValue_ok; reflexivity).
  intros [= <-]. reflexivity.
Qed.

Lemma Message_field_was_comment k b m :
  names k "was_comment" = true ->
  Message_field k (JBool b) m = inl (set_IsComment b m, None).
Proof.
  intros Hk. unfold Message_field.
  rewrite !(names_other k "was_comment" _ Hk) by (vm_compute; discriminate).
  rewrite Hk. reflexivity.
Qed.

(** ** The members of the listing envelope *)

Lemma inboxListing_field_children k x l l' :
  names k "children" = true ->
  inboxListing_field k x l = inl (l', None) ->
  l' = set_Things (inboxThings_UnmarshalJSON (Some x) (Things l)).1 l /\
  (inboxThings_UnmarshalJSON (Some x) (Things l)).2 = None.
Proof.
  intros Hk. unfold inboxListing_field. rewrite Hk.
  destruct (inboxThings_UnmarshalJSON (Some x) (Things l)) as [t [e|]];
    [discriminate|]. intros [= <-]. auto.
Qed.

Lemma inboxListing_field_other k x l l' :
  names k "children" = false ->
  inboxListing_field k x l = inl (l', None) ->
  Things l' = Things l /\
  (names k "after" = false -> After l' = After l) /\
  (names k "before" = false -> Before l' = Before l).
Proof.
  intros Hk. unfold inboxListing_field. rewrite Hk.
  destruct (names k "after") eqn:Ha.
  - rewrite (names_other k "after" "before" Ha) by (vm_compute; discriminate).
    intros [-> | (s & -> & ->)]%stringValue_ok; repeat split; try discriminate; auto.
  - destruct (names k "before") eqn:Hb.
    + intros [-> | (s & -> & ->)]%stringValue_ok; repeat split; try discriminate; auto.
    + intros [= <-]. repeat split; try discriminate; auto.
Qed.

Lemma inboxListing_field_after k a l :
  names k "after" = true ->
  inboxListing_field k (JString a) l = inl (set_After a l, None).
Proof.
  intros Hk. unfold inboxListing_field.
  rewrite (names_other k "after" "children" Hk) by (vm_compute; discriminate).
  rewrite Hk. reflexivity.
Qed.

Lemma inboxListing_field_before k b l :
  names k "before" = true ->
  inboxListing_field k (JString b) l = inl (set_Before b l, None).
Proof.
  intros Hk. unfold inboxListing_field.
  rewrite (names_other k "before" "children" Hk) by (vm_compute; discriminate).
  rewrite (names_other k "before" "after" Hk) by (vm_compute; discriminate).
  rewrite Hk. reflexivity.
Qed.

Lemma inboxListing_field_notNil k x l l' :
  isNil (inboxThings_Comments (Things l)) = false /\
  isNil (inboxThings_Messages (Things l)) = false ->
  inboxListing_field k x l = inl (l', None) ->
  isNil (inboxThings_Comments (Things l')) = false /\
  isNil (inboxThings_Messages (Things l')) = false.
Proof.
  intros Hl Hstep. destruct (names k "children") eqn:Hk.
  - apply (inboxListing_field_children k x l l' Hk) in Hstep as [-> _]. simpl.
    apply UnmarshalJSON_notNil.
  - apply (inboxListing_field_other k x l l' Hk) in Hstep as [-> _]. exact Hl.
Qed.

Lemma rootInboxListing_field_other k x r r' :
  names k "data" = false ->
  rootInboxListing_field k x r = inl (r', None) -> Data r' = Data r.
Proof.
  intros Hk. unfold rootInboxListing_field. rewrite Hk.
  destruct (names k "kind").
  - intros [-> | (s & _ & ->)]%stringValue_ok; reflexivity.
  - intros [= <-]. reflexivity.
Qed.

Lemma rootInboxListing_field_data k x r r' :
  names k "data" = true ->
  rootInboxListing_field k x r = inl (r', None) ->
  structValue inboxListing_field x (Data r) = inl (Data r', None).
Proof.
  intros Hk. unfold rootInboxListing_field.
  rewrite (names_other k "data" "kind" Hk) by (vm_compute; discriminate).
  rewrite Hk. intros (l & Hl & [= <-])%bind_ok. exact Hl.
Qed.

Lemma inboxListing_field_After k x l l' :
  names k "after" = false ->
  inboxListing_field k x l = inl (l', None) -> After l' = After l.
Proof.
  intros Hk Hstep. destruct (names k "children") eqn:Hc.
  - apply (inboxListing_field_children k x l l' Hc) in Hstep as [-> _]. reflexivity.
  - apply (inboxListing_field_other k x l l' Hc) in Hstep as (_ & Ha & _). exact (Ha Hk).
Qed.

Lemma inboxListing_field_Before k x l l' :
  names k "before" = false ->
  inboxListing_field k x l = inl (l', None) -> Before l' = Before l.
Proof.
  intros Hk Hstep. destruct (names k "children") eqn:Hc.
  - apply (inboxListing_field_children k x l l' Hc) in Hstep as [-> _]. reflexivity.
  - apply (inboxListing_field_other k x l l' Hc) in Hstep as (_ & _ & Hb). exact (Hb Hk).
Qed.

Lemma inboxListing_field_Things k x l l' :
  names k "children" = false ->
  inboxListing_field k x l = inl (l', None) -> Things l' = Things l.
Proof.
  intros Hk Hstep.
  apply (inboxListing_field_other k x l l' Hk) in Hstep as (Ht & _). exact Ht.
Qed.

(** The last member naming [f] in the last data object of the envelope
    decides what the decoded listing holds for it. *)
Lemma envelope_last {X} (proj : inboxListing -> X) (f : string)
    pre kd dpre kf x dpost post r r' c :
  (forall k y l l', names k f = false ->
     inboxListing_field k y l = inl (l', None) -> proj l' = proj l) ->
  (forall u u', inboxListing_field kf x u = inl (u', None) -> proj u' = c) ->
  names kd "data" = true -> unnamed "data" post -> unnamed f dpost ->
  object rootInboxListing_field
    (pre ++ (kd, JObject (dpre ++ (kf, x) :: dpost)) :: post) r = inl (r', None) ->
  proj (Data r') = c.
Proof.
  intros Hframe Hset Hkd Hpost Hdpost.
  apply (object_last rootInboxListing_field (fun r => proj (Data r)) "data").
  - intros k y v v' Hk Hstep.
    rewrite (rootInboxListing_field_other k y v v' Hk Hstep). reflexivity.
  - exact Hpost.
  - intros u u' Hstep.
    apply (rootInboxListing_field_data kd _ u u' Hkd) in Hstep. simpl in Hstep.
    exact (object_last inboxListing_field proj f Hframe dpre kf x dpost
             (Data u) (Data u') c Hdpost Hset Hstep).
Qed.

Lemma structValue_inboxListing_notNil x l l' :
  notNil (Things l) ->
  structValue inboxListing_field x l = inl (l', None) -> notNil (Things l').
Proof.
  intros Hl. destruct x; simpl; try discriminate.
  - intros [= <-]. exact Hl.
  - apply (object_preserves inboxListing_field (fun l => notNil (Things l)));
      [|exact Hl].
    intros k x v v' _. apply inboxListing_field_notNil.
Qed.

Lemma rootInboxListing_field_notNil k x r r' :
  notNil (Things (Data r)) ->
  rootInboxListing_field k x r = inl (r', None) -> notNil (Things (Data r')).
Proof.
  intros Hr Hstep. destruct (names k "data") eqn:Hk.
  - apply (rootInboxListing_field_data k x r r' Hk) in Hstep.
    exact (structValue_inboxListing_notNil x _ _ Hr Hstep).
  - rewrite (rootInboxListing_field_other k x r r' Hk Hstep). exact Hr.
Qed.

(** A children member in a data object leaves both buckets not nil. *)
Lemma envelope_notNil ms kd dms kc c r r' :
  (kd, JObject dms) ∈ ms -> names kd "data" = true ->
  (kc, c) ∈ dms -> names kc "children" = true ->
  object rootInboxListing_field ms r = inl (r', None) ->
  notNil (Things (Data r')).
Proof.
  intros Hd Hkd Hc Hkc.
  apply (object_establishes rootInboxListing_field
           (fun r => notNil (Things (Data r))) ms kd (JObject dms)); [exact Hd| |].
  - intros u u' Hstep.
    apply (rootInboxListing_field_data kd _ u u' Hkd) in Hstep. simpl in Hstep.
    revert Hstep.
    apply (object_establishes inboxListing_field
             (fun l => notNil (Things l)) dms kc c); [exact Hc| |].
    + intros l l' Hstep.
      apply (inboxListing_field_children kc c l l' Hkc) in Hstep as [-> _]. simpl.
      apply UnmarshalJSON_notNil.
    + intros k x l l'. apply inboxListing_field_notNil.
  - intros k x u u'. apply rootInboxListing_field_notNil.
Qed.

(** A malformed data or children member makes the envelope fail. *)
Lemma envelope_failed ms r :
  (exists k x, (k, x) ∈ ms /\ names k "data" = true /\ notObjectOrNull x = true) \/
  (exists k dms k' c, (k, JObject dms) ∈ ms /\ names k "data" = true /\
     (k', c) ∈ dms /\ names k' "children" = true /\ notArrayOrNull c = true) ->
  failed (rootInboxListing_value (JObject ms) r).
Proof.
  intros [(k & x & Hin & Hk & Hx) | (k & dms & k' & c & Hin & Hk & Hin' & Hk' & Hc)];
    simpl; apply (object_failed rootInboxListing_field _ _ ms r Hin); intros u;
    unfold rootInboxListing_field;
    rewrite (names_other k "data" "kind" Hk) by (vm_compute; discriminate);
    rewrite Hk; apply bind_failed_l.
  - destruct x; try discriminate; exact I.
  - simpl. apply (object_failed inboxListing_field _ _ dms _ Hin'). intros l.
    unfold inboxListing_field. rewrite Hk'.
    destruct c; try discriminate; exact I.
Qed.

(** ** The inbox call *)

Lemma inbox_ok path opts tr root resp :
  (MessageService_inbox path opts tr).1 = (Some root, resp, None) ->
  exists req resp',
    sendRequest req = inl resp' /\
    Unmarshal rootInboxListing_value (Body resp') new_rootInboxListing = inl root.
Proof.
  unfold MessageService_inbox, Client_NewRequest, Client_Do.
  destruct (addOptions path opts) as [path'|e]; [|discriminate].
  destruct (buildRequest MethodGet path' None) as [req|e]; [|discriminate].
  destruct (sendRequest req) as [resp'|e] eqn:Hsend; [|discriminate].
  destruct (Unmarshal _ (Body resp') _) as [root'|e] eqn:Hdec; [|discriminate].
  simpl. intros [= <- _]. eauto.
Qed.

Lemma inbox_failed path opts tr :
  (forall req resp, sendRequest req = inl resp ->
     exists err, Unmarshal rootInboxListing_value (Body resp) new_rootInboxListing = inr err) ->
  exists err, (MessageService_inbox path opts tr).1 = (None, None, Some err).
Proof.
  intros Hbody. unfold MessageService_inbox, Client_NewRequest, Client_Do.
  destruct (addOptions path opts) as [path'|e]; [|simpl; eauto].
  destruct (buildRequest MethodGet path' None) as [req|e]; [|simpl; eauto].
  destruct (sendRequest req) as [resp'|e] eqn:Hsend; [|simpl; eauto].
  destruct (Hbody req resp' Hsend) as [err ->]. simpl. eauto.
Qed.

(** ** The listing assembler *)

(** C3. On a decoded listing the comments view and the messages view carry
    the same after and the same before, and these are the strings of the
    envelope: the string of the last after (before) member of the last data
    object, as it is, the empty string included. *)
Theorem views_carry_envelope_cursors j l :
  Unmarshal rootInboxListing_value (Some j) new_rootInboxListing = inl l ->
  Messages_After (getComments l) = Messages_After (getMessages l) /\
  Messages_Before (getComments l) = Messages_Before (getMessages l) /\
  (forall pre kd dpre ka a dpost post,
     j = JObject (pre ++ (kd, JObject (dpre ++ (ka, JString a) :: dpost)) :: post) ->
     names kd "data" = true -> names ka "after" = true ->
     unnamed "data" post -> unnamed "after" dpost ->
     Messages_After (getComments l) = a /\ Messages_After (getMessages l) = a) /\
  (forall pre kd dpre kb b dpost post,
     j = JObject (pre ++ (kd, JObject (dpre ++ (kb, JString b) :: dpost)) :: post) ->
     names kd "data" = true -> names kb "before" = true ->
     unnamed "data" post -> unnamed "before" dpost ->
     Messages_Before (getComments l) = b /\ Messages_Before (getMessages l) = b).
Proof.
  intros Hdec%Unmarshal_ok. split; [reflexivity|]. split; [reflexivity|]. split.
  - intros pre kd dpre ka a dpost post -> Hkd Hka Hpost Hdpost. simpl in Hdec.
    assert (Ha : After (Data l) = a).
    { apply (envelope_last After "after" pre kd dpre ka (JString a) dpost post
               new_rootInboxListing l a inboxListing_field_After); try assumption.
      intros u u'. rewrite (inboxListing_field_after ka a u Hka).
      intros [= <-]. reflexivity. }
    simpl. auto.
  - intros pre kd dpre kb b dpost post -> Hkd Hkb Hpost Hdpost. simpl in Hdec.
    assert (Hb : Before (Data l) = b).
    { apply (envelope_last Before "before" pre kd dpre kb (JString b) dpost post
               new_rootInboxListing l b inboxListing_field_Before); try assumption.
      intros u u'. rewrite (inboxListing_field_before kb b u Hkb).
      intros [= <-]. reflexivity. }
    simpl. auto.
Qed.

(** C6. With an empty children array [UnmarshalJSON] returns no error and
    leaves both buckets empty and not nil, whatever the receiver held; and a
    decoded listing whose envelope ends on an empty children array has both
    buckets empty and not nil. *)
Theorem empty_children_give_empty_buckets t :
  inboxThings_UnmarshalJSON (Some (JArray [])) t =
    (mkInboxThings (Make []) (Make []), None) /\
  (forall j l pre kd dpre kc dpost post,
     Unmarshal rootInboxListing_value (Some j) new_rootInboxListing = inl l ->
     j = JObject (pre ++ (kd, JObject (dpre ++ (kc, JArray []) :: dpost)) :: post) ->
     names kd "data" = true -> names kc "children" = true ->
     unnamed "data" post -> unnamed "children" dpost ->
     Messages_Messages (getComments l) = Make [] /\
     Messages_Messages (getMessages l) = Make []).
Proof.
  split; [reflexivity|].
  intros j l pre kd dpre kc dpost post Hdec%Unmarshal_ok -> Hkd Hkc Hpost Hdpost.
  simpl in Hdec.
  assert (Hthings : Things (Data l) = mkInboxThings (Make []) (Make [])).
  { apply (envelope_last Things "children" pre kd dpre kc (JArray []) dpost post
             new_rootInboxListing l _ inboxListing_field_Things); try assumption.
    intros u u' Hstep.
    apply (inboxListing_field_children kc _ u u' Hkc) in Hstep as [-> _]. reflexivity. }
  simpl. rewrite Hthings. auto.
Qed.

(** C7, as the code has it. A listing returned by [inbox] whose envelope
    holds a children member inside a data object has both buckets not nil,
    also when a kind has no match. *)
Theorem buckets_not_nil_with_children path opts tr ms kd dms kc c root resp :
  (forall req resp', sendRequest req = inl resp' -> Body resp' = Some (JObject ms)) ->
  (kd, JObject dms) ∈ ms -> names kd "data" = true ->
  (kc, c) ∈ dms -> names kc "children" = true ->
  (MessageService_inbox path opts tr).1 = (Some root, resp, None) ->
  isNil (Messages_Messages (getComments root)) = false /\
  isNil (Messages_Messages (getMessages root)) = false.
Proof.
  intros Hbody Hd Hkd Hc Hkc (req & resp' & Hsend & Hdec)%inbox_ok.
  rewrite (Hbody req resp' Hsend) in Hdec. apply Unmarshal_ok in Hdec.
  exact (envelope_notNil ms kd dms kc c _ root Hd Hkd Hc Hkc Hdec).
Qed.

(** C5, as the code has it. When the envelope holds a data member that is
    neither an object nor null, or a data object holding a children member
    that is neither an array nor null, [inbox] returns an error and neither
    a listing nor a response. *)
Theorem malformed_envelope_is_an_error path opts tr ms :
  (forall req resp, sendRequest req = inl resp -> Body resp = Some (JObject ms)) ->
  (exists k x, (k, x) ∈ ms /\ names k "data" = true /\ notObjectOrNull x = true) \/
  (exists k dms k' c, (k, JObject dms) ∈ ms /\ names k "data" = true /\
     (k', c) ∈ dms /\ names k' "children" = true /\ notArrayOrNull c = true) ->
  exists err, (MessageService_inbox path opts tr).1 = (None, None, Some err).
Proof.
  intros Hbody Hbad. apply inbox_failed. intros req resp Hsend.
  rewrite (Hbody req resp Hsend). apply Unmarshal_failed, envelope_failed, Hbad.
Qed.

(** C8, as the code has it. Both kinds decode the payload with the same
    decoder into the same [Message]; the kind decides the bucket only.
    [IsComment] is what the payload says: the boolean of its last
    was_comment member, and false when it has none. *)
Theorem isComment_is_read_from_payload d v :
  Unmarshal Message_value d new_Message = inl v ->
  (forall t, route t (mkThing kindComment d) =
             set_Comments (append (inboxThings_Comments t) v) t) /\
  (forall t, route t (mkThing kindMessage d) =
             set_Messages (append (inboxThings_Messages t) v) t) /\
  (forall pre k b post,
     d = Some (JObject (pre ++ (k, JBool b) :: post)) ->
     names k "was_comment" = true -> unnamed "was_comment" post ->
     IsComment v = b) /\
  (forall ms, d = Some (JObject ms) -> unnamed "was_comment" ms -> IsComment v = false).
Proof.
  intros Hdec. repeat split.
  - intros t. unfold route. simpl. rewrite Hdec. reflexivity.
  - intros t. unfold route. simpl. rewrite Hdec. reflexivity.
  - intros pre k b post -> Hk Hpost. apply Unmarshal_ok in Hdec. simpl in Hdec.
    apply (object_last Message_field IsComment "was_comment" Message_field_IsComment
             pre k (JBool b) post new_Message v b Hpost); [|exact Hdec].
    intros u u'. rewrite (Message_field_was_comment k b u Hk). intros [= <-]. reflexivity.
  - intros ms -> Hms. apply Unmarshal_ok in Hdec. simpl in Hdec.
    exact (object_unnamed Message_field IsComment "was_comment" Message_field_IsComment
             ms new_Message v Hms Hdec).
Qed.

(** ** Calls on a list of ids *)

Lemma postIDs_none path tr :
  postIDs path [] tr = ((None, Some (errors_New "must provide at least 1 id")), tr).
Proof. reflexivity. Qed.

Lemma postIDs_some path id ids tr :
  exists tr',
    (postIDs path (id :: ids) tr).2 =
    tr ++ CallNewRequestWithForm MethodPost path
            {["id" := [strings_Join (id :: ids) ","]]} :: tr'.
Proof.
  unfold postIDs, Client_NewRequestWithForm, Client_Do_nil, Client_Do, Values_Set.
  cbn [length Nat.eqb]. rewrite insert_empty.
  destruct (buildRequest _ _ _) as [req|e]; [|exists []; reflexivity].
  exists [CallDo req]. destruct (sendRequest req); simpl; rewrite <- app_assoc; reflexivity.
Qed.

(** C10. [Read], [Unread], [Collapse] and [Uncollapse] called without an id
    return the error "must provide at least 1 id" and leave the trace of
    client calls as it was: no request is built or sent. With at least one
    id, the first client call builds a POST request to the path of the
    operation whose form has the single field "id", holding the ids joined
    with commas. *)
Theorem id_calls_need_an_id tr :
  let refused := ((None, Some (errors_New "must provide at least 1 id")), tr) in
  (MessageService_Read [] tr = refused /\
   MessageService_Unread [] tr = refused /\
   MessageService_Collapse [] tr = refused /\
   MessageService_Uncollapse [] tr = refused) /\
  (forall id ids,
     let form : gmap string (list string) :=
       {["id" := [strings_Join (id :: ids) ","]]} in
     (exists tr', (MessageService_Read (id :: ids) tr).2 =
        tr ++ CallNewRequestWithForm MethodPost "api/read_message" form :: tr') /\
     (exists tr', (MessageService_Unread (id :: ids) tr).2 =
        tr ++ CallNewRequestWithForm MethodPost "api/unread_message" form :: tr') /\
     (exists tr', (MessageService_Collapse (id :: ids) tr).2 =
        tr ++ CallNewRequestWithForm MethodPost "api/collapse_message" form :: tr') /\
     (exists tr', (MessageService_Uncollapse (id :: ids) tr).2 =
        tr ++ CallNewRequestWithForm MethodPost "api/uncollapse_message" form :: tr')).
Proof.
  split; [repeat split|].
  intros id ids form. repeat split; apply postIDs_some.
Qed.

(** * Further properties of the decoder *)

(** ** When the batch fails *)

Lemma object_ok_Forall {T} (field : string -> value -> T -> dec T)
    (P : string -> value -> Prop) ms :
  (forall k x v, (exists v', field k x v = inl (v', None)) <-> P k x) ->
  forall v, (exists v', object field ms v = inl (v', None)) <->
            Forall (fun m => P m.1 m.2) ms.
Proof.
  intros Hstep. induction ms as [|[k x] ms IH]; intros v.
  - split; [constructor|]. intros _. exists v. reflexivity.
  - rewrite Forall_cons. split.
    + intros [v' (u & Hu & Hrest)%object_ok_cons]. split.
      * apply (Hstep k x v). eauto.
      * apply (IH u). eauto.
    + intros [[u Hu]%(Hstep k x v) [v' Hv']%(IH u)].
      exists v'. apply object_ok_cons. eauto.
Qed.

Lemma array_ok_Forall {T} (elem : value -> T -> dec T) zero xs :
  (exists l, array elem zero xs = inl (l, None)) <->
  Forall (fun x => exists e, elem x zero = inl (e, None)) xs.
Proof.
  induction xs as [|x xs IH].
  - split; [constructor|]. intros _. exists []. reflexivity.
  - rewrite Forall_cons, <- IH. split.
    + intros [l Hl%array_ok]. inversion Hl as [|? e ? l' He Hl']; subst.
      split; [eauto|]. exists l'. apply array_ok, Hl'.
    + intros [[e He] [l Hl%array_ok]]. exists (e :: l). apply array_ok.
      constructor; assumption.
Qed.

Lemma thing_field_ok k x v :
  (exists v', thing_field k x v = inl (v', None)) <->
  (names k "kind" = true -> stringOrNull x = true).
Proof.
  unfold thing_field. destruct (names k "kind").
  - destruct x; simpl; split;
      try (intros [v' [=]]); try (intros H; specialize (H eq_refl); discriminate);
      eauto.
  - destruct (names k "data"); split; eauto; discriminate.
Qed.

Lemma thing_value_ok c :
  (exists th, thing_value c zero_thing = inl (th, None)) <-> thingShaped c.
Proof.
  destruct c as [|b|lit|s|elems|ms]; simpl.
  - split; [intros _; exact I|intros _; exists zero_thing; reflexivity].
  - split; [intros [th [=]]|intros []].
  - split; [intros [th [=]]|intros []].
  - split; [intros [th [=]]|intros []].
  - split; [intros [th [=]]|intros []].
  - apply (object_ok_Forall thing_field
             (fun k x => names k "kind" = true -> stringOrNull x = true)).
    apply thing_field_ok.
Qed.

Lemma things_parse_shaped xs :
  (exists things, Unmarshal things_value (Some (JArray xs)) Nil = inl things) <->
  Forall thingShaped xs.
Proof.
  assert (H : Forall thingShaped xs <->
              exists l, array thing_value zero_thing xs = inl (l, None)).
  { rewrite array_ok_Forall. apply Forall_iff. intros c. symmetry. apply thing_value_ok. }
  rewrite H. split.
  - intros [things (l & Hl & _)%Unmarshal_ok%bind_ok]. eauto.
  - intros [l Hl]. exists (Make l). apply Unmarshal_ok, bind_ok. eauto.
Qed.

(** X1. [UnmarshalJSON] returns no error exactly when the text is null or an
    array whose children all have the shape of a Thing (null, or an object
    whose kind members are strings or null): one child of another shape
    fails the whole batch. Whenever it returns an error, both buckets are
    left empty and not nil; text that is not JSON is a syntax error. *)
Theorem UnmarshalJSON_fails_on_misshaped_child x t :
  let r := inboxThings_UnmarshalJSON (Some x) t in
  (r.2 = None <->
   match x with
   | JNull => True
   | JArray xs => Forall thingShaped xs
   | _ => False
   end) /\
  (r.2 <> None -> r.1 = mkInboxThings (Make []) (Make [])) /\
  inboxThings_UnmarshalJSON None t =
    (mkInboxThings (Make []) (Make []), Some SyntaxError).
Proof.
  split; [|split; [|reflexivity]].
  - destruct x; simpl; try (split; [discriminate|intros []]).
    + split; reflexivity.
    + rewrite <- things_parse_shaped. unfold inboxThings_UnmarshalJSON.
      destruct (Unmarshal things_value (Some (JArray elems)) Nil) as [things|err];
        simpl; split; eauto; try discriminate.
      intros [things' [=]].
  - unfold inboxThings_UnmarshalJSON.
    destruct (Unmarshal things_value (Some x) Nil) as [things|err]; simpl.
    + intros H. contradiction H. reflexivity.
    + reflexivity.
Qed.

(** ** How the children are shared out *)

Lemma childItem_one_kind x :
  is_Some (childItem kindComment x) -> childItem kindMessage x = None.
Proof.
  unfold childItem. destruct (thingOf x) as [th|]; simpl; [|intros [? [=]]].
  unfold validThing.
  destruct (String.eqb (thing_Kind th) kindComment) eqn:Hk; [|intros [? [=]]].
  apply String.eqb_eq in Hk. rewrite Hk. reflexivity.
Qed.

Lemma length_omap_disjoint {A B} (f g : A -> option B) (l : list A) :
  (forall x, is_Some (f x) -> g x = None) ->
  length (omap f l) + length (omap g l) <= length l.
Proof.
  intros Hfg. induction l as [|x l IH]; [reflexivity|].
  rewrite (omap_cons_app f), (omap_cons_app g), !length_app. simpl.
  destruct (f x) as [y|] eqn:Hf.
  - rewrite (Hfg x) by (rewrite Hf; eauto). simpl. lia.
  - destruct (g x); simpl; lia.
Qed.

(** X2. No child lands in both buckets, so the two buckets together never
    hold more items than the array has children. *)
Theorem buckets_share_no_child t xs things :
  Unmarshal things_value (Some (JArray xs)) Nil = inl things ->
  let r := inboxThings_UnmarshalJSON (Some (JArray xs)) t in
  (forall x, is_Some (childItem kindComment x) -> childItem kindMessage x = None) /\
  len (inboxThings_Comments r.1) + len (inboxThings_Messages r.1) <= length xs.
Proof.
  intros Hparse r. split; [exact childItem_one_kind|].
  subst r. rewrite (UnmarshalJSON_children _ t _ Hparse). unfold len. simpl.
  apply length_omap_disjoint, childItem_one_kind.
Qed.

(** X3. Decoding the concatenation of two arrays gives, bucket by bucket,
    the items of the first array followed by the items of the second. *)
Theorem buckets_of_concatenation t xs ys things :
  Unmarshal things_value (Some (JArray (xs ++ ys))) Nil = inl things ->
  let r := inboxThings_UnmarshalJSON (Some (JArray (xs ++ ys))) t in
  let rx := inboxThings_UnmarshalJSON (Some (JArray xs)) t in
  let ry := inboxThings_UnmarshalJSON (Some (JArray ys)) t in
  rx.2 = None /\ ry.2 = None /\
  elements (inboxThings_Comments r.1) =
    elements (inboxThings_Comments rx.1) ++ elements (inboxThings_Comments ry.1) /\
  elements (inboxThings_Messages r.1) =
    elements (inboxThings_Messages rx.1) ++ elements (inboxThings_Messages ry.1).
Proof.
  intros Hparse r rx ry. subst r rx ry.
  assert (Hshaped : Forall thingShaped (xs ++ ys)).
  { apply things_parse_shaped. eauto. }
  apply Forall_app in Hshaped as [[tx Hx]%things_parse_shaped [ty Hy]%things_parse_shaped].
  rewrite (UnmarshalJSON_children _ t _ Hparse), (UnmarshalJSON_children _ t _ Hx),
    (UnmarshalJSON_children _ t _ Hy). simpl.
  rewrite !omap_app. auto.
Qed.

(** X4. A recognized child whose data member is null is not dropped: it
    puts a blank item, all fields zero, at its place in the bucket. A
    recognized child without a data member is dropped. *)
Theorem null_payload_is_a_blank_item t pre c post th things :
  Unmarshal things_value (Some (JArray (pre ++ c :: post))) Nil = inl things ->
  thingOf c = Some th ->
  let r := inboxThings_UnmarshalJSON (Some (JArray (pre ++ c :: post))) t in
  (thing_Kind th = kindComment -> thing_Data th = Some JNull ->
   elements (inboxThings_Comments r.1) =
     omap (childItem kindComment) pre ++ new_Message :: omap (childItem kindComment) post) /\
  (thing_Kind th = kindMessage -> thing_Data th = Some JNull ->
   elements (inboxThings_Messages r.1) =
     omap (childItem kindMessage) pre ++ new_Message :: omap (childItem kindMessage) post) /\
  (thing_Data th = None ->
   r = inboxThings_UnmarshalJSON (Some (JArray (pre ++ post))) t).
Proof.
  intros Hparse Hc r. subst r.
  split; [|split].
  - intros Hk Hd. rewrite (UnmarshalJSON_children _ t _ Hparse). simpl.
    rewrite omap_app, (omap_cons_app _ c post). do 2 f_equal.
    simpl. unfold childItem. rewrite Hc. simpl. unfold validThing.
    rewrite Hk, Hd. reflexivity.
  - intros Hk Hd. rewrite (UnmarshalJSON_children _ t _ Hparse). simpl.
    rewrite omap_app, (omap_cons_app _ c post). do 2 f_equal.
    simpl. unfold childItem. rewrite Hc. simpl. unfold validThing.
    rewrite Hk, Hd. reflexivity.
  - intros Hd. apply (UnmarshalJSON_drop t pre c post th Hc).
    intros u. unfold route. rewrite Hd. simpl.
    destruct (String.eqb _ kindComment); [reflexivity|].
    destruct (String.eqb _ kindMessage); reflexivity.
Qed.

(** ** The payload of an item *)

Ltac field_frame Hk :=
  unfold Message_field; rewrite Hk;
  repeat match goal with
  | |- context [if ?c then _ else _] => destruct c
  end;
  try (intros [-> | (? & _ & ->)]%stringValue_ok; reflexivity);
  try (intros [-> | (? & _ & ->)]%boolValue_ok; reflexivity);
  try (intros [? ->]%createdValue_ok; reflexivity);
  intros [= <-]; reflexivity.

Ltac field_store Hk tag :=
  unfold Message_field; rewrite Hk;
  rewrite ?(names_other _ tag _ Hk) by (vm_compute; discriminate);
  reflexivity.

Lemma Message_field_ID k x m m' :
  names k "id" = false -> Message_field k x m = inl (m', None) -> ID m' = ID m.
Proof. intros Hk. field_frame Hk. Qed.

Lemma Message_field_FullID k x m m' :
  names k "name" = false -> Message_field k x m = inl (m', None) -> FullID m' = FullID m.
Proof. intros Hk. field_frame Hk. Qed.

Lemma Message_field_Created k x m m' :
  names k "created_utc" = false ->
  Message_field k x m = inl (m', None) -> Created m' = Created m.
Proof. intros Hk. field_frame Hk. Qed.

Lemma Message_field_Subject k x m m' :
  names k "subject" = false ->
  Message_field k x m = inl (m', None) -> Subject m' = Subject m.
Proof. intros Hk. field_frame Hk. Qed.

Lemma Message_field_Text k x m m' :
  names k "body" = false -> Message_field k x m = inl (m', None) -> Text m' = Text m.
Proof. intros Hk. field_frame Hk. Qed.

Lemma Message_field_ParentID k x m m' :
  names k "parent_id" = false ->
  Message_field k x m = inl (m', None) -> ParentID m' = ParentID m.
Proof. intros Hk. field_frame Hk. Qed.

Lemma Message_field_Author k x m m' :
  names k "author" = false ->
  Message_field k x m = inl (m', None) -> Author m' = Author m.
Proof. intros Hk. field_frame Hk. Qed.

Lemma Message_field_To k x m m' :
  names k "dest" = false -> Message_field k x m = inl (m', None) -> To m' = To m.
Proof. intros Hk. field_frame Hk. Qed.

Lemma Message_field_id k x m :
  names k "id" = true -> Message_field k x m = stringValue set_ID x m.
Proof. intros Hk. field_store Hk "id". Qed.

Lemma Message_field_name k x m :
  names k "name" = true -> Message_field k x m = stringValue set_FullID x m.
Proof. intros Hk. field_store Hk "name". Qed.

Lemma Message_field_created_utc k x m :
  names k "created_utc" = true -> Message_field k x m = createdValue x m.
Proof. intros Hk. field_store Hk "created_utc". Qed.

Lemma Message_field_subject k x m :
  names k "subject" = true -> Message_field k x m = stringValue set_Subject x m.
Proof. intros Hk. field_store Hk "subject". Qed.

Lemma Message_field_body k x m :
  names k "body" = true -> Message_field k x m = stringValue set_Text x m.
Proof. intros Hk. field_store Hk "body". Qed.

Lemma Message_field_parent_id k x m :
  names k "parent_id" = true -> Message_field k x m = stringValue set_ParentID x m.
Proof. intros Hk. field_store Hk "parent_id". Qed.

Lemma Message_field_author k x m :
  names k "author" = true -> Message_field k x m = stringValue set_Author x m.
Proof. intros Hk. field_store Hk "author". Qed.

Lemma Message_field_dest k x m :
  names k "dest" = true -> Message_field k x m = stringValue set_To x m.
Proof. intros Hk. field_store Hk "dest". Qed.

Lemma Message_field_flag k x m :
  names k "was_comment" = true -> Message_field k x m = boolValue set_IsComment x m.
Proof. intros Hk. field_store Hk "was_comment". Qed.

Lemma stringValue_failed {T} (set : string -> T -> T) x v :
  stringOrNull x = false -> failed (stringValue set x v).
Proof. destruct x; simpl; try discriminate; intros _; exact I. Qed.

Lemma boolValue_failed {T} (set : bool -> T -> T) x v :
  boolOrNull x = false -> failed (boolValue set x v).
Proof. destruct x; simpl; try discriminate; intros _; exact I. Qed.

Lemma Message_field_failed k x m :
  Exists (fun tag => names k tag = true) stringTags /\ stringOrNull x = false \/
  names k "was_comment" = true /\ boolOrNull x = false ->
  failed (Message_field k x m).
Proof.
  intros [[Htag Hx] | [Hk Hx]].
  - apply Exists_exists in Htag as (tag & Hin & Hk). unfold stringTags in Hin.
    repeat (apply elem_of_cons in Hin as [->|Hin]); [..|inversion Hin].
    + rewrite (Message_field_id k x m Hk). apply stringValue_failed, Hx.
    + rewrite (Message_field_name k x m Hk). apply stringValue_failed, Hx.
    + rewrite (Message_field_subject k x m Hk). apply stringValue_failed, Hx.
    + rewrite (Message_field_body k x m Hk). apply stringValue_failed, Hx.
    + rewrite (Message_field_parent_id k x m Hk). apply stringValue_failed, Hx.
    + rewrite (Message_field_author k x m Hk). apply stringValue_failed, Hx.
    + rewrite (Message_field_dest k x m Hk). apply stringValue_failed, Hx.
  - rewrite (Message_field_flag k x m Hk). apply boolValue_failed, Hx.
Qed.

(** X5. Which payloads drop their item: a missing data member, a payload
    that is neither an object nor null, and an object with one member of
    the wrong type (a string field given a value that is neither a string
    nor null, was_comment given a value that is neither a boolean nor
    null). The decode returns an error and the loop leaves the buckets as
    they are, whatever the kind: no partly filled item is kept. *)
Theorem ill_typed_payload_drops_the_item d :
  d = None \/
  (exists x, d = Some x /\ notObjectOrNull x = true) \/
  (exists ms k x, d = Some (JObject ms) /\ (k, x) ∈ ms /\
     (Exists (fun tag => names k tag = true) stringTags /\ stringOrNull x = false \/
      names k "was_comment" = true /\ boolOrNull x = false)) ->
  (exists err, Unmarshal Message_value d new_Message = inr err) /\
  (forall t kind, route t (mkThing kind d) = t).
Proof.
  intros Hbad.
  assert (Herr : exists err, Unmarshal Message_value d new_Message = inr err).
  { destruct Hbad as [-> | [(x & -> & Hx) | (ms & k & x & -> & Hin & Hill)]].
    - exists SyntaxError. reflexivity.
    - apply Unmarshal_failed. destruct x; try discriminate; exact I.
    - apply Unmarshal_failed. simpl.
      apply (object_failed Message_field k x ms new_Message Hin).
      intros u. apply Message_field_failed, Hill. }
  split; [exact Herr|].
  destruct Herr as [err Herr]. intros t kind. unfold route. simpl. rewrite Herr.
  destruct (String.eqb kind kindComment); [reflexivity|].
  destruct (String.eqb kind kindMessage); reflexivity.
Qed.

Lemma stringValue_JString {T} (set : string -> T -> T) s v :
  stringValue set (JString s) v = inl (set s v, None).
Proof. reflexivity. Qed.

(** X6. A decoded item holds, in each string field, the string of the last
    member of the payload that names the tag of the field: id, name
    ([FullID]), subject, body ([Text]), parent_id, author and dest ([To]);
    a field no member names is the empty string, and a null payload gives
    the blank item. *)
Theorem Message_fields_follow_their_tags d v :
  Unmarshal Message_value d new_Message = inl v ->
  (forall pre k s post, d = Some (JObject (pre ++ (k, JString s) :: post)) ->
     (names k "id" = true -> unnamed "id" post -> ID v = s) /\
     (names k "name" = true -> unnamed "name" post -> FullID v = s) /\
     (names k "subject" = true -> unnamed "subject" post -> Subject v = s) /\
     (names k "body" = true -> unnamed "body" post -> Text v = s) /\
     (names k "parent_id" = true -> unnamed "parent_id" post -> ParentID v = s) /\
     (names k "author" = true -> unnamed "author" post -> Author v = s) /\
     (names k "dest" = true -> unnamed "dest" post -> To v = s)) /\
  (forall ms, d = Some (JObject ms) ->
     (unnamed "id" ms -> ID v = "") /\
     (unnamed "name" ms -> FullID v = "") /\
     (unnamed "subject" ms -> Subject v = "") /\
     (unnamed "body" ms -> Text v = "") /\
     (unnamed "parent_id" ms -> ParentID v = "") /\
     (unnamed "author" ms -> Author v = "") /\
     (unnamed "dest" ms -> To v = "")) /\
  (d = Some JNull -> v = new_Message).
Proof.
  intros Hdec. split; [|split].
  - intros pre k s post ->. apply Unmarshal_ok in Hdec. simpl in Hdec.
    repeat split; intros Hk Hpost.
    + apply (object_last Message_field ID "id" Message_field_ID
               pre k (JString s) post new_Message v s Hpost); [|exact Hdec].
      intros u u'. rewrite (Message_field_id k _ u Hk), stringValue_JString.
      intros [= <-]. reflexivity.
    + apply (object_last Message_field FullID "name" Message_field_FullID
               pre k (JString s) post new_Message v s Hpost); [|exact Hdec].
      intros u u'. rewrite (Message_field_name k _ u Hk), stringValue_JString.
      intros [= <-]. reflexivity.
    + apply (object_last Message_field Subject "subject" Message_field_Subject
               pre k (JString s) post new_Message v s Hpost); [|exact Hdec].
      intros u u'. rewrite (Message_field_subject k _ u Hk), stringValue_JString.
      intros [= <-]. reflexivity.
    + apply (object_last Message_field Text "body" Message_field_Text
               pre k (JString s) post new_Message v s Hpost); [|exact Hdec].
      intros u u'. rewrite (Message_field_body k _ u Hk), stringValue_JString.
      intros [= <-]. reflexivity.
    + apply (object_last Message_field ParentID "parent_id" Message_field_ParentID
               pre k (JString s) post new_Message v s Hpost); [|exact Hdec].
      intros u u'. rewrite (Message_field_parent_id k _ u Hk), stringValue_JString.
      intros [= <-]. reflexivity.
    + apply (object_last Message_field Author "author" Message_field_Author
               pre k (JString s) post new_Message v s Hpost); [|exact Hdec].
      intros u u'. rewrite (Message_field_author k _ u Hk), stringValue_JString.
      intros [= <-]. reflexivity.
    + apply (object_last Message_field To "dest" Message_field_To
               pre k (JString s) post new_Message v s Hpost); [|exact Hdec].
      intros u u'. rewrite (Message_field_dest k _ u Hk), stringValue_JString.
      intros [= <-]. reflexivity.
  - intros ms ->. apply Unmarshal_ok in Hdec. simpl in Hdec.
    repeat split; intros Hms.
    + exact (object_unnamed Message_field ID "id" Message_field_ID ms _ v Hms Hdec).
    + exact (object_unnamed Message_field FullID "name" Message_field_FullID ms _ v Hms Hdec).
    + exact (object_unnamed Message_field Subject "subject" Message_field_Subject
               ms _ v Hms Hdec).
    + exact (object_unnamed Message_field Text "body" Message_field_Text ms _ v Hms Hdec).
    + exact (object_unnamed Message_field ParentID "parent_id" Message_field_ParentID
               ms _ v Hms Hdec).
    + exact (object_unnamed Message_field Author "author" Message_field_Author
               ms _ v Hms Hdec).
    + exact (object_unnamed Message_field To "dest" Message_field_To ms _ v Hms Hdec).
  - intros ->. apply Unmarshal_ok in Hdec. simpl in Hdec.
    unfold ret in Hdec. congruence.
Qed.

Lemma createdValue_zero x m :
  x <> JNull -> Created m = None ->
  createdValue x m =
  match Timestamp_UnmarshalJSON (Some x) Timestamp_zero with
  | (t, None) => ret (set_Created (Some t) m)
  | (_, Some err) => abort err
  end.
Proof.
  intros Hx Hm. unfold createdValue. rewrite Hm. simpl.
  destruct x; try reflexivity. contradiction Hx. reflexivity.
Qed.

(** X7. [Created] is nil when no member of the payload names created_utc
    or when that member is null. A single created_utc member that is not
    null is handed to [Timestamp.UnmarshalJSON] on a zero [Timestamp]: when
    the item decodes, [Created] points to its result, and when it returns
    an error the item does not decode. *)
Theorem created_utc_goes_through_Timestamp pre k x post :
  names k "created_utc" = true ->
  unnamed "created_utc" pre -> unnamed "created_utc" post ->
  x <> JNull ->
  let ts := Timestamp_UnmarshalJSON (Some x) Timestamp_zero in
  (forall v, Unmarshal Message_value (Some (JObject (pre ++ (k, x) :: post)))
               new_Message = inl v ->
     ts.2 = None /\ Created v = Some ts.1) /\
  (ts.2 <> None ->
     exists err, Unmarshal Message_value (Some (JObject (pre ++ (k, x) :: post)))
                   new_Message = inr err) /\
  (forall v, Unmarshal Message_value (Some (JObject (pre ++ (k, JNull) :: post)))
               new_Message = inl v ->
     Created v = None) /\
  (forall v, Unmarshal Message_value (Some (JObject (pre ++ post))) new_Message = inl v ->
     Created v = None).
Proof.
  intros Hk Hpre Hpost Hx ts.
  assert (Hframe := object_unnamed Message_field Created "created_utc"
                      Message_field_Created).
  split; [|split; [|split]].
  - intros v Hdec%Unmarshal_ok. simpl in Hdec.
    apply object_ok_app in Hdec as (u & Hu & Hdec).
    apply object_ok_cons in Hdec as (u' & Hstep & Hdec).
    apply (Hframe pre) in Hu; [|exact Hpre]. apply (Hframe post) in Hdec; [|exact Hpost].
    rewrite (Message_field_created_utc k x u Hk), (createdValue_zero x u Hx Hu) in Hstep.
    subst ts. destruct (Timestamp_UnmarshalJSON (Some x) Timestamp_zero) as [t [e|]];
      [discriminate|].
    injection Hstep as <-. rewrite Hdec. auto.
  - intros Hts. apply Unmarshal_failed. simpl. rewrite object_app.
    destruct (object Message_field pre new_Message) as [[u [e|]]|e] eqn:Hu;
      [apply bind_failed_l; exact I| |exact I].
    apply (Hframe pre) in Hu; [|exact Hpre].
    change (@inl (Message * option error) error (u, None)) with (ret u).
    rewrite bind_ret_l. cbn [object]. apply bind_failed_l.
    rewrite (Message_field_created_utc k x u Hk), (createdValue_zero x u Hx Hu).
    subst ts. destruct (Timestamp_UnmarshalJSON (Some x) Timestamp_zero) as [t [e|]];
      [exact I|]. contradiction Hts. reflexivity.
  - intros v Hdec%Unmarshal_ok. simpl in Hdec.
    apply (object_last Message_field Created "created_utc" Message_field_Created
             pre k JNull post new_Message v None Hpost); [|exact Hdec].
    intros u u'. rewrite (Message_field_created_utc k JNull u Hk). simpl.
    intros [= <-]. reflexivity.
  - intros v Hdec%Unmarshal_ok. simpl in Hdec.
    apply (Hframe (pre ++ post)) in Hdec; [exact Hdec|].
    apply Forall_app. auto.
Qed.

(** * Further properties of the calls *)

Lemma Do_nil_transported req tr :
  Client_Do_nil req tr = (transported req, tr ++ [CallDo req]).
Proof.
  unfold Client_Do_nil, Client_Do, transported.
  destruct (sendRequest req); reflexivity.
Qed.

Lemma postIDs_built path id ids tr :
  let form : gmap string (list string) := {["id" := [strings_Join (id :: ids) ","]]} in
  let built := CallNewRequestWithForm MethodPost path form in
  match buildRequest MethodPost path (Some form) with
  | inr err => postIDs path (id :: ids) tr = ((None, Some err), tr ++ [built])
  | inl req => postIDs path (id :: ids) tr = (transported req, tr ++ [built; CallDo req])
  end.
Proof.
  intros form built. subst form built.
  unfold postIDs, Client_NewRequestWithForm, Values_Set.
  cbn [length Nat.eqb]. rewrite insert_empty.
  destruct (buildRequest _ _ _) as [req|e]; [|reflexivity].
  rewrite Do_nil_transported, <- app_assoc. reflexivity.
Qed.

(** X8. [Read], [Unread], [Collapse] and [Uncollapse] with at least one id
    make one request: when the client cannot build it, its error is
    returned and nothing is sent; otherwise the request built is sent once
    and the response or error of the transport is returned as it is. *)
Theorem id_calls_send_what_they_built id ids tr :
  Forall (fun '(method, path) =>
    let form : gmap string (list string) :=
      {["id" := [strings_Join (id :: ids) ","]]} in
    let built := CallNewRequestWithForm MethodPost path form in
    match buildRequest MethodPost path (Some form) with
    | inr err => method (id :: ids) tr = ((None, Some err), tr ++ [built])
    | inl req => method (id :: ids) tr = (transported req, tr ++ [built; CallDo req])
    end)
  [(MessageService_Read, "api/read_message");
   (MessageService_Unread, "api/unread_message");
   (MessageService_Collapse, "api/collapse_message");
   (MessageService_Uncollapse, "api/uncollapse_message")].
Proof. repeat constructor; apply postIDs_built. Qed.

(** ** The id field *)

Lemma contains_append c s r : contains c (s +:+ String c r) = true.
Proof.
  induction s as [|c' s IH]; simpl.
  - rewrite Ascii.eqb_refl. reflexivity.
  - rewrite IH. apply orb_true_r.
Qed.

Lemma append_sep_inj c s1 s2 r1 r2 :
  contains c s1 = false -> contains c s2 = false ->
  s1 +:+ String c r1 = s2 +:+ String c r2 -> s1 = s2 /\ r1 = r2.
Proof.
  revert s2. induction s1 as [|a s1 IH]; intros [|b s2]; simpl.
  - intros _ _ [= ->]. auto.
  - intros _ [Hb _]%orb_false_elim [= <- _]. rewrite Ascii.eqb_refl in Hb. discriminate.
  - intros [Ha _]%orb_false_elim _ [= -> _]. rewrite Ascii.eqb_refl in Ha. discriminate.
  - intros [_ H1]%orb_false_elim [_ H2]%orb_false_elim [= -> Heq].
    destruct (IH s2 H1 H2 Heq) as [-> ->]. auto.
Qed.

Lemma contains_comma s r : contains "," (s +:+ "," +:+ r) = true.
Proof. exact (contains_append "," s r). Qed.

Lemma append_comma_inj s1 s2 r1 r2 :
  contains "," s1 = false -> contains "," s2 = false ->
  s1 +:+ "," +:+ r1 = s2 +:+ "," +:+ r2 -> s1 = s2 /\ r1 = r2.
Proof. exact (append_sep_inj "," s1 s2 r1 r2). Qed.

Lemma strings_Join_cons s s' rest sep :
  strings_Join (s :: s' :: rest) sep = s +:+ sep +:+ strings_Join (s' :: rest) sep.
Proof. reflexivity. Qed.

Lemma strings_Join_one s sep : strings_Join [s] sep = s.
Proof. reflexivity. Qed.

(** X9. Ids without a comma can be read back from the id field: two
    non-empty lists of such ids that are joined to the same string are the
    same list. (An id holding a comma is not escaped.) *)
Theorem joined_ids_determine_the_ids ids1 ids2 :
  ids1 <> [] -> ids2 <> [] ->
  Forall (fun id => contains "," id = false) ids1 ->
  Forall (fun id => contains "," id = false) ids2 ->
  strings_Join ids1 "," = strings_Join ids2 "," ->
  ids1 = ids2.
Proof.
  revert ids2. induction ids1 as [|s1 [|s1' rest1] IH]; intros [|s2 [|s2' rest2]];
    try congruence; intros _ _ H1 H2.
  - rewrite !strings_Join_one. congruence.
  - rewrite strings_Join_cons, strings_Join_one. intros Heq.
    apply Forall_cons in H1 as [H1 _]. rewrite Heq, contains_comma in H1. discriminate.
  - rewrite strings_Join_cons, strings_Join_one. intros Heq.
    apply Forall_cons in H2 as [H2 _]. rewrite <- Heq, contains_comma in H2. discriminate.
  - rewrite !strings_Join_cons.
    apply Forall_cons in H1 as [Hs1 H1]. apply Forall_cons in H2 as [Hs2 H2].
    intros [-> Hrest]%append_comma_inj; [|assumption..].
    f_equal. apply IH; [discriminate|discriminate|assumption..].
Qed.

(** X10. [Block] and [Delete] take any id, the empty one included, and
    build one POST request whose form has the single field id holding that
    id; [ReadAll] builds one POST request without a form. Each sends the
    request only when it was built and returns what the transport returns. *)
Theorem single_request_calls id tr :
  let form : gmap string (list string) := {["id" := [id]]} in
  match buildRequest MethodPost "api/block" (Some form) with
  | inr err => MessageService_Block id tr =
      ((None, Some err), tr ++ [CallNewRequestWithForm MethodPost "api/block" form])
  | inl req => MessageService_Block id tr =
      (transported req,
       tr ++ [CallNewRequestWithForm MethodPost "api/block" form; CallDo req])
  end /\
  match buildRequest MethodPost "api/del_msg" (Some form) with
  | inr err => MessageService_Delete id tr =
      ((None, Some err), tr ++ [CallNewRequestWithForm MethodPost "api/del_msg" form])
  | inl req => MessageService_Delete id tr =
      (transported req,
       tr ++ [CallNewRequestWithForm MethodPost "api/del_msg" form; CallDo req])
  end /\
  match buildRequest MethodPost "api/read_all_messages" None with
  | inr err => MessageService_ReadAll tr =
      ((None, Some err), tr ++ [CallNewRequest MethodPost "api/read_all_messages"])
  | inl req => MessageService_ReadAll tr =
      (transported req,
       tr ++ [CallNewRequest MethodPost "api/read_all_messages"; CallDo req])
  end.
Proof.
  intros form. subst form.
  unfold MessageService_Block, MessageService_Delete, MessageService_ReadAll,
    Client_NewRequestWithForm, Client_NewRequest, Values_Set.
  rewrite !insert_empty.
  repeat split; destruct (buildRequest _ _ _) as [req|e]; try reflexivity;
    rewrite Do_nil_transported, <- app_assoc; reflexivity.
Qed.

(** ** Send *)

Lemma query_Values_form r :
  (query_Values r).1 =
  let base : gmap string (list string) :=
    <["text" := [SendMessageRequest_Text r]]>
      (<["subject" := [SendMessageRequest_Subject r]]>
         (<["to" := [SendMessageRequest_To r]]> ∅)) in
  if (String.length (SendMessageRequest_FromSubreddit r) =? 0)%nat then base
  else <["from_sr" := [SendMessageRequest_FromSubreddit r]]> base.
Proof.
  unfold query_Values, Values_Add. cbn [fst].
  repeat (rewrite ?lookup_insert_ne by done; rewrite ?lookup_empty).
  reflexivity.
Qed.

(** X11. [Send] with a nil request returns the error "sendRequest: cannot
    be nil" and makes no client call. Otherwise it builds one POST request
    to api/compose whose form holds api_type = json, the fields to, subject
    and text even when they are empty, from_sr only when [FromSubreddit] is
    not empty, and no other field; the request is sent only when it was
    built. *)
Theorem Send_builds_the_compose_form r tr :
  MessageService_Send None tr =
    ((None, Some (errors_New "sendRequest: cannot be nil")), tr) /\
  exists form : gmap string (list string),
    (form !! "api_type" = Some ["json"] /\
     form !! "to" = Some [SendMessageRequest_To r] /\
     form !! "subject" = Some [SendMessageRequest_Subject r] /\
     form !! "text" = Some [SendMessageRequest_Text r] /\
     form !! "from_sr" =
       (if (String.length (SendMessageRequest_FromSubreddit r) =? 0)%nat then None
        else Some [SendMessageRequest_FromSubreddit r]) /\
     (forall key, is_Some (form !! key) ->
        key ∈ ["api_type"; "to"; "subject"; "text"; "from_sr"])) /\
    match buildRequest MethodPost "api/compose" (Some form) with
    | inr err => MessageService_Send (Some r) tr =
        ((None, Some err), tr ++ [CallNewRequestWithForm MethodPost "api/compose" form])
    | inl req => MessageService_Send (Some r) tr =
        (transported req,
         tr ++ [CallNewRequestWithForm MethodPost "api/compose" form; CallDo req])
    end.
Proof.
  split; [reflexivity|].
  exists (Values_Set "api_type" "json" (query_Values r).1). split.
  - rewrite query_Values_form. unfold Values_Set. cbv zeta.
    assert (Hdom : forall (m : gmap string (list string)) key,
      is_Some (m !! key) ->
      m = <["api_type" := ["json"]]>
            (<["text" := [SendMessageRequest_Text r]]>
               (<["subject" := [SendMessageRequest_Subject r]]>
                  (<["to" := [SendMessageRequest_To r]]> ∅))) \/
      m = <["api_type" := ["json"]]>
            (<["from_sr" := [SendMessageRequest_FromSubreddit r]]>
               (<["text" := [SendMessageRequest_Text r]]>
                  (<["subject" := [SendMessageRequest_Subject r]]>
                     (<["to" := [SendMessageRequest_To r]]> ∅)))) ->
      key ∈ ["api_type"; "to"; "subject"; "text"; "from_sr"]).
    { intros m key [v Hv] Hm. rewrite !elem_of_cons.
      destruct (decide (key = "api_type")); [auto|].
      destruct (decide (key = "to")); [auto|].
      destruct (decide (key = "subject")); [auto|].
      destruct (decide (key = "text")); [auto|].
      destruct (decide (key = "from_sr")); [auto 10|].
      exfalso. destruct Hm as [-> | ->];
        rewrite !lookup_insert_ne, lookup_empty in Hv by done; discriminate. }
    destruct (String.length (SendMessageRequest_FromSubreddit r) =? 0)%nat.
    + split; [apply lookup_insert_eq|].
      split; [rewrite !lookup_insert_ne by done; apply lookup_insert_eq|].
      split; [rewrite !lookup_insert_ne by done; apply lookup_insert_eq|].
      split; [rewrite !lookup_insert_ne by done; apply lookup_insert_eq|].
      split; [rewrite !lookup_insert_ne by done; apply lookup_empty|].
      intros key Hkey. apply (Hdom _ key Hkey). left. reflexivity.
    + split; [apply lookup_insert_eq|].
      split; [rewrite !lookup_insert_ne by done; apply lookup_insert_eq|].
      split; [rewrite !lookup_insert_ne by done; apply lookup_insert_eq|].
      split; [rewrite !lookup_insert_ne by done; apply lookup_insert_eq|].
      split; [rewrite !lookup_insert_ne by done; apply lookup_insert_eq|].
      intros key Hkey. apply (Hdom _ key Hkey). right. reflexivity.
  - unfold MessageService_Send, Client_NewRequestWithForm. cbn [query_Values fst].
    destruct (buildRequest _ _ _) as [req|e]; [|reflexivity].
    rewrite Do_nil_transported, <- app_assoc. reflexivity.
Qed.

(** ** inbox and its callers *)

(** X12. [inbox] returns a listing and a response exactly when it returns
    no error. When [addOptions] fails the client is not called; when the
    request cannot be built nothing is sent; otherwise the request is sent
    once, a transport error is returned as it is, and a body that is not
    JSON is a syntax error. *)
Theorem inbox_returns_a_listing_or_an_error path opts tr :
  let r := MessageService_inbox path opts tr in
  (is_Some r.1.1.1 <-> r.1.2 = None) /\
  (is_Some r.1.1.2 <-> r.1.2 = None) /\
  (forall err, addOptions path opts = inr err -> r = ((None, None, Some err), tr)) /\
  (forall p err, addOptions path opts = inl p ->
     buildRequest MethodGet p None = inr err ->
     r = ((None, None, Some err), tr ++ [CallNewRequest MethodGet p])) /\
  (forall p req, addOptions path opts = inl p ->
     buildRequest MethodGet p None = inl req ->
     r.2 = tr ++ [CallNewRequest MethodGet p; CallDo req] /\
     (forall err, sendRequest req = inr err -> r.1 = (None, None, Some err)) /\
     (forall resp, sendRequest req = inl resp -> Body resp = None ->
        r.1 = (None, None, Some SyntaxError))).
Proof.
  intros r. subst r. unfold MessageService_inbox, Client_NewRequest, Client_Do.
  split; [|split; [|split; [|split]]].
  1,2: destruct (addOptions path opts) as [p|e1];
       [destruct (buildRequest MethodGet p None) as [req|e2];
        [destruct (sendRequest req) as [resp|e3];
         [destruct (Unmarshal _ (Body resp) _) as [root|e4]|]|]|];
       simpl; split; intros H; try discriminate;
       try (exfalso; exact (is_Some_None H)); eauto.
  - intros err ->. reflexivity.
  - intros p err -> ->. reflexivity.
  - intros p req -> ->. split; [|split].
    + destruct (sendRequest req) as [resp|e3];
        [destruct (Unmarshal _ (Body resp) _) as [root|e4]|];
        simpl; rewrite <- app_assoc; reflexivity.
    + intros err ->. reflexivity.
    + intros resp -> ->. reflexivity.
Qed.

Lemma listing_value children after before :
  rootInboxListing_value (listing children after before) new_rootInboxListing =
  match inboxThings_UnmarshalJSON (Some children) (mkInboxThings Nil Nil) with
  | (t, None) =>
      inl (mkRootInboxListing "Listing" (mkInboxListing t after before), None)
  | (_, Some err) => inr err
  end.
Proof.
  cbv -[inboxThings_UnmarshalJSON].
  destruct (inboxThings_UnmarshalJSON (Some children) _) as [t [e|]]; reflexivity.
Qed.

Lemma inbox_listing path opts tr resp xs after before things :
  answers path opts resp ->
  Body resp = Some (listing (JArray xs) after before) ->
  Unmarshal things_value (Some (JArray xs)) Nil = inl things ->
  (MessageService_inbox path opts tr).1 =
  (Some (mkRootInboxListing "Listing"
           (mkInboxListing
              (mkInboxThings (Make (omap (childItem kindComment) xs))
                             (Make (omap (childItem kindMessage) xs)))
              after before)),
   Some resp, None).
Proof.
  intros (p & req & Hp & Hreq & Hsend) Hbody Hparse.
  unfold MessageService_inbox, Client_NewRequest, Client_Do.
  rewrite Hp, Hreq, Hsend, Hbody. unfold Unmarshal.
  rewrite listing_value, (UnmarshalJSON_children _ _ _ Hparse). reflexivity.
Qed.

(** X13. When the transport answers with a listing envelope whose children
    parse as Things, [Inbox] and [InboxUnread] return the comments view and
    the messages view of that one page: each holds the items of its kind in
    the order of the array, both carry the after and before of the
    envelope, and the response comes with them. *)
Theorem Inbox_returns_both_views opts tr resp xs after before things :
  Body resp = Some (listing (JArray xs) after before) ->
  Unmarshal things_value (Some (JArray xs)) Nil = inl things ->
  let comments := mkMessages (Make (omap (childItem kindComment) xs)) after before in
  let messages := mkMessages (Make (omap (childItem kindMessage) xs)) after before in
  (answers "message/inbox" opts resp ->
     (MessageService_Inbox opts tr).1 = (Some comments, Some messages, Some resp, None)) /\
  (answers "message/unread" opts resp ->
     (MessageService_InboxUnread opts tr).1 =
       (Some comments, Some messages, Some resp, None)).
Proof.
  intros Hbody Hparse comments messages. split; intros Hans.
  - pose proof (inbox_listing _ opts tr resp xs after before things Hans Hbody Hparse) as H.
    unfold MessageService_Inbox.
    destruct (MessageService_inbox "message/inbox" opts tr) as [[[root resp'] err] tr'].
    simpl in H. injection H as -> -> ->. reflexivity.
  - pose proof (inbox_listing _ opts tr resp xs after before things Hans Hbody Hparse) as H.
    unfold MessageService_InboxUnread.
    destruct (MessageService_inbox "message/unread" opts tr) as [[[root resp'] err] tr'].
    simpl in H. injection H as -> -> ->. reflexivity.
Qed.

(** X14. [Sent] returns the messages view only: the comment items of the
    page are decoded but never reach the caller. *)
Theorem Sent_returns_the_messages_only opts tr resp xs after before things :
  answers "message/sent" opts resp ->
  Body resp = Some (listing (JArray xs) after before) ->
  Unmarshal things_value (Some (JArray xs)) Nil = inl things ->
  (MessageService_Sent opts tr).1 =
    (Some (mkMessages (Make (omap (childItem kindMessage) xs)) after before),
     Some resp, None).
Proof.
  intros Hans Hbody Hparse.
  pose proof (inbox_listing _ opts tr resp xs after before things Hans Hbody Hparse) as H.
  unfold MessageService_Sent.
  destruct (MessageService_inbox "message/sent" opts tr) as [[[root resp'] err] tr'].
  simpl in H. injection H as -> -> ->. reflexivity.
Qed.



(** ** Null cursors and misshaped pages *)

Lemma bind_ext {A B} (m : dec A) (f g : A -> dec B) :
  (forall a, f a = g a) -> bind m f = bind m g.
Proof. intros Hfg. destruct m as [[a s]|e]; simpl; [rewrite Hfg|]; reflexivity. Qed.

Lemma inboxListing_field_null k l :
  names k "children" = false -> inboxListing_field k JNull l = ret l.
Proof.
  intros Hk. unfold inboxListing_field. rewrite Hk.
  destruct (names k "after"); [reflexivity|].
  destruct (names k "before"); reflexivity.
Qed.

Lemma object_skip {T} (field : string -> value -> T -> dec T) pre k x post v :
  (forall u, field k x u = ret u) ->
  object field (pre ++ (k, x) :: post) v = object field (pre ++ post) v.
Proof.
  intros Hskip. rewrite !object_app. apply bind_ext. intros u.
  cbn [object]. rewrite Hskip. apply bind_ret_l.
Qed.

Lemma object_replace {T} (field : string -> value -> T -> dec T) pre k x y post v :
  (forall u, field k x u = field k y u) ->
  object field (pre ++ (k, x) :: post) v = object field (pre ++ (k, y) :: post) v.
Proof.
  intros Hsame. rewrite !object_app. apply bind_ext. intros u.
  cbn [object]. rewrite Hsame. reflexivity.
Qed.

(** X16. In a data object a null after or before member (any null member
    that does not name children) is decoded as if it were not there: the
    cursor stays the empty string or the string an earlier member gave, so
    a null cursor and a missing cursor cannot be told apart. *)
Theorem null_cursor_is_no_cursor rpre kd pre k post rpost :
  names k "children" = false ->
  Unmarshal rootInboxListing_value
    (Some (JObject (rpre ++ (kd, JObject (pre ++ (k, JNull) :: post)) :: rpost)))
    new_rootInboxListing =
  Unmarshal rootInboxListing_value
    (Some (JObject (rpre ++ (kd, JObject (pre ++ post)) :: rpost)))
    new_rootInboxListing.
Proof.
  intros Hk. unfold Unmarshal, rootInboxListing_value, structValue.
  rewrite (object_replace rootInboxListing_field rpre kd
             (JObject (pre ++ (k, JNull) :: post)) (JObject (pre ++ post)));
    [reflexivity|].
  intros u. unfold rootInboxListing_field, structValue.
  rewrite (object_skip inboxListing_field pre k JNull post); [reflexivity|].
  intros l. apply inboxListing_field_null, Hk.
Qed.

(** X17. One child that does not have the shape of a Thing fails the whole
    page: [Inbox] returns an error and no view, whatever the other
    children are. *)
Theorem misshaped_child_fails_Inbox opts tr xs after before :
  (forall req resp, sendRequest req = inl resp ->
     Body resp = Some (listing (JArray xs) after before)) ->
  ~ Forall thingShaped xs ->
  exists err, (MessageService_Inbox opts tr).1 = (None, None, None, Some err).
Proof.
  intros Hbody Hbad.
  destruct (inbox_failed "message/inbox" opts tr) as [err Herr].
  { intros req resp Hsend. rewrite (Hbody req resp Hsend). unfold Unmarshal.
    rewrite listing_value. unfold inboxThings_UnmarshalJSON.
    destruct (Unmarshal things_value (Some (JArray xs)) Nil) as [things|e] eqn:Hparse;
      [|eauto].
    contradiction Hbad. apply things_parse_shaped. eauto. }
  exists err. unfold MessageService_Inbox.
  destruct (MessageService_inbox "message/inbox" opts tr) as [[[root resp] e] tr'].
  simpl in Herr. injection Herr as -> -> ->. reflexivity.
Qed.

End Inbox.

(** * The model at work

    The theorems at concrete payloads, with timestamps kept as number texts
    and the canned client. *)

Arguments mkMessage {Timestamp}.
Arguments mkInboxThings {Timestamp}.
Arguments mkInboxListing {Timestamp}.
Arguments mkRootInboxListing {Timestamp}.
Arguments inboxThings_Comments {Timestamp}.
Arguments inboxThings_Messages {Timestamp}.
Arguments Messages_Messages {Timestamp}.
Arguments Messages_After {Timestamp}.
Arguments Messages_Before {Timestamp}.
Arguments IsComment {Timestamp}.
Arguments getComments {Timestamp}.
Arguments getMessages {Timestamp}.

Abbreviation run_UnmarshalJSON :=
  (inboxThings_UnmarshalJSON string "" literalTimestamp) (only parsing).
Abbreviation run_decode body :=
  (Unmarshal (rootInboxListing_value string "" literalTimestamp) body
     (new_rootInboxListing string)) (only parsing).
Abbreviation run_inbox body :=
  (MessageService_inbox string "" literalTimestamp string text unit
     canned_buildRequest (canned_sendRequest body) canned_Body canned_addOptions
     "message/inbox" tt []) (only parsing).
Abbreviation item id flag := (mkMessage id "" None "" "" "" "" "" flag) (only parsing).

(** C1 at the scenario of the spec: a malformed comment child between a
    valid comment and a valid message. *)
Lemma malformed_payload_is_dropped_witness :
  let t := mkInboxThings Nil Nil in
  run_UnmarshalJSON (Some (JArray [comment_c1; malformed_t1; message_m1])) t =
    (mkInboxThings (Make [item "c1" true]) (Make [item "m1" false]), None) /\
  run_UnmarshalJSON (Some (JArray [comment_c1; malformed_t1; message_m1])) t =
    run_UnmarshalJSON (Some (JArray [comment_c1; message_m1])) t.
Proof.
  intros t.
  pose proof (malformed_payload_is_dropped string "" literalTimestamp t
                [comment_c1] malformed_t1 [message_m1]) as H.
  edestruct H as (_ & H2 & _); [reflexivity|reflexivity|eexists; reflexivity|].
  split; [reflexivity|exact H2].
Defined.

(** C2 at the scenario of the spec: three children, one per bucket. *)
Lemma bucket_is_valid_children_in_order_witness :
  let r := run_UnmarshalJSON (Some (JArray [comment_c1; message_m1; unknown_t9]))
             (mkInboxThings Nil Nil) in
  r.2 = None /\
  inboxThings_Comments r.1 = Make [item "c1" true] /\
  inboxThings_Messages r.1 = Make [item "m1" false] /\
  len (inboxThings_Comments r.1) = 1 /\ len (inboxThings_Messages r.1) = 1.
Proof.
  intros r.
  pose proof (bucket_is_valid_children_in_order string "" literalTimestamp
                (mkInboxThings Nil Nil) [comment_c1; message_m1; unknown_t9]
                _ eq_refl) as H.
  cbv zeta in H. destruct H as (H1 & H2 & H3 & H4 & H5 & _).
  refine (conj H1 (conj H2 (conj H3 (conj _ _)))); subst r;
    [rewrite H4|rewrite H5]; reflexivity.
Defined.

(** C4 at the scenario of the spec: the "t9" child is passed over. *)
Lemma unknown_kind_is_dropped_witness :
  let t := mkInboxThings Nil Nil in
  thingOf unknown_t9 = Some (mkThing "t9" (Some (JObject []))) /\
  run_UnmarshalJSON (Some (JArray [comment_c1; unknown_t9; message_m1])) t =
    run_UnmarshalJSON (Some (JArray [comment_c1; message_m1])) t /\
  (run_UnmarshalJSON (Some (JArray [comment_c1; unknown_t9; message_m1])) t).2 = None.
Proof.
  intros t.
  destruct (unknown_kind_is_dropped string "" literalTimestamp t
              [comment_c1] unknown_t9 [message_m1] (mkThing "t9" (Some (JObject [])))
              eq_refl ltac:(discriminate) ltac:(discriminate)) as [H1 H2].
  split; [reflexivity|]. split; [exact H1|]. eapply H2. reflexivity.
Defined.

(** C3 at the scenario of the spec: after is "next1", before is empty. *)
Lemma views_carry_envelope_cursors_witness :
  let j := listing (JArray [comment_c1; message_m1; unknown_t9]) "next1" "" in
  exists l, run_decode (Some j) = inl l /\
    Messages_After (getComments l) = "next1" /\
    Messages_After (getMessages l) = "next1" /\
    Messages_Before (getComments l) = "" /\
    Messages_Before (getMessages l) = "".
Proof.
  intros j.
  exists (mkRootInboxListing "Listing"
            (mkInboxListing
               (mkInboxThings (Make [item "c1" true]) (Make [item "m1" false]))
               "next1" "")).
  split; [reflexivity|].
  destruct (views_carry_envelope_cursors string "" literalTimestamp j _ eq_refl)
    as (_ & _ & Ha & Hb).
  destruct (Ha [("kind", JString "Listing")] "data"
               [("children", JArray [comment_c1; message_m1; unknown_t9])]
               "after" "next1" [("before", JString "")] [] eq_refl eq_refl eq_refl
               ltac:(repeat constructor) ltac:(repeat constructor)) as [Ha1 Ha2].
  destruct (Hb [("kind", JString "Listing")] "data"
               [("children", JArray [comment_c1; message_m1; unknown_t9]);
                ("after", JString "next1")]
               "before" "" [] [] eq_refl eq_refl eq_refl
               ltac:(repeat constructor) ltac:(repeat constructor)) as [Hb1 Hb2].
  exact (conj Ha1 (conj Ha2 (conj Hb1 Hb2))).
Defined.

(** C6 at an envelope with no child. *)
Lemma empty_children_give_empty_buckets_witness :
  let j := listing (JArray []) "" "" in
  exists l, run_decode (Some j) = inl l /\
    Messages_Messages (getComments l) = Make [] /\
    Messages_Messages (getMessages l) = Make [].
Proof.
  intros j.
  exists (mkRootInboxListing "Listing"
            (mkInboxListing (mkInboxThings (Make []) (Make [])) "" "")).
  split; [reflexivity|].
  destruct (empty_children_give_empty_buckets string "" literalTimestamp
              (mkInboxThings Nil Nil)) as [_ H].
  apply (H j _ [("kind", JString "Listing")] "data" [] "children"
           [("after", JString ""); ("before", JString "")] []);
    try reflexivity; repeat constructor.
Defined.

(** C7 (amended) at an envelope whose only child is of an unknown kind. *)
Lemma buckets_not_nil_with_children_witness :
  let j := listing (JArray [unknown_t9]) "" "" in
  exists root resp, (run_inbox (Some j)).1 = (Some root, resp, None) /\
    isNil (Messages_Messages (getComments root)) = false /\
    isNil (Messages_Messages (getMessages root)) = false.
Proof.
  intros j.
  exists (mkRootInboxListing "Listing"
            (mkInboxListing (mkInboxThings (Make []) (Make [])) "" "")).
  exists (Some (Some j)).
  split; [reflexivity|].
  apply (buckets_not_nil_with_children string "" literalTimestamp string text unit
           canned_buildRequest (canned_sendRequest (Some j)) canned_Body canned_addOptions
           "message/inbox" tt []
           [("kind", JString "Listing");
            ("data", JObject [("children", JArray [unknown_t9]);
                              ("after", JString ""); ("before", JString "")])]
           "data" [("children", JArray [unknown_t9]);
                   ("after", JString ""); ("before", JString "")]
           "children" (JArray [unknown_t9]) _ (Some (Some j))).
  - intros req resp [= <-]. reflexivity.
  - right. left.
  - reflexivity.
  - left.
  - reflexivity.
  - reflexivity.
Defined.

(** C7 as stated fails: without a children member [inbox] returns a listing
    whose buckets are nil. *)
Lemma buckets_nil_without_children :
  exists root resp,
    run_decode (Some envelope_without_children) = inl root /\
    (run_inbox (Some envelope_without_children)).1 = (Some root, resp, None) /\
    isNil (Messages_Messages (getComments root)) = true /\
    isNil (Messages_Messages (getMessages root)) = true.
Proof.
  exists (mkRootInboxListing "Listing"
            (mkInboxListing (mkInboxThings Nil Nil) "next1" "")).
  exists (Some (Some envelope_without_children)).
  split; [reflexivity|]. split; [reflexivity|]. split; reflexivity.
Qed.

(** C5 (amended) at an envelope whose children member is a string. *)
Lemma malformed_envelope_is_an_error_witness :
  exists err,
    (run_inbox (Some envelope_string_children)).1 = (None, None, Some err).
Proof.
  apply (malformed_envelope_is_an_error string "" literalTimestamp string text unit
           canned_buildRequest (canned_sendRequest (Some envelope_string_children))
           canned_Body canned_addOptions "message/inbox" tt []
           [("kind", JString "Listing");
            ("data", JObject [("children", JString "none")])]).
  - intros req resp [= <-]. reflexivity.
  - right. exists "data", [("children", JString "none")], "children", (JString "none").
    repeat split; try reflexivity.
    + right. left.
    + left.
Defined.

(** C5 as stated fails: an envelope without a data member, and one whose
    children member is null, are decoded without an error and a listing is
    returned. *)
Lemma missing_data_is_no_error :
  run_decode (Some envelope_without_data) =
    inl (mkRootInboxListing "Listing"
           (mkInboxListing (mkInboxThings Nil Nil) "" "")) /\
  run_decode (Some envelope_null_children) =
    inl (mkRootInboxListing "Listing"
           (mkInboxListing (mkInboxThings (Make []) (Make [])) "" "")) /\
  (run_inbox (Some envelope_without_data)).1 =
    (Some (mkRootInboxListing "Listing"
             (mkInboxListing (mkInboxThings Nil Nil) "" "")),
     Some (Some envelope_without_data), None) /\
  (run_inbox (Some envelope_null_children)).1 =
    (Some (mkRootInboxListing "Listing"
             (mkInboxListing (mkInboxThings (Make []) (Make [])) "" "")),
     Some (Some envelope_null_children), None).
Proof. split; [reflexivity|]. split; [reflexivity|]. split; reflexivity. Qed.

(** C8 (amended) at the payload of the comment without a was_comment
    member: it lands in the comments bucket with [IsComment] false. *)
Lemma isComment_is_read_from_payload_witness :
  let d := Some (JObject [("id", JString "c1")]) in
  Unmarshal (Message_value string "" literalTimestamp) d (new_Message string) =
    inl (item "c1" false) /\
  route string "" literalTimestamp (mkInboxThings (Make []) (Make []))
    (mkThing kindComment d) = mkInboxThings (Make [item "c1" false]) (Make []) /\
  IsComment (Timestamp := string) (item "c1" false) = false.
Proof.
  intros d.
  destruct (isComment_is_read_from_payload string "" literalTimestamp d
              (item "c1" false) eq_refl) as (Hc & _ & _ & Hnone).
  split; [reflexivity|]. split.
  - rewrite Hc. reflexivity.
  - apply (Hnone [("id", JString "c1")] eq_refl). repeat constructor.
Defined.

(** C8 as stated fails: a comment reply without was_comment is an item with
    [IsComment] false in the comments bucket, and a private message saying
    was_comment is an item with [IsComment] true in the messages bucket. *)
Lemma isComment_not_from_kind :
  run_UnmarshalJSON (Some (JArray [comment_without_flag; message_with_flag]))
    (mkInboxThings Nil Nil) =
  (mkInboxThings (Make [item "c1" false]) (Make [item "m1" true]), None).
Proof. reflexivity. Qed.

(** * The further properties at work *)

Arguments mkMessages {Timestamp}.
Arguments ID {Timestamp}.
Arguments FullID {Timestamp}.
Arguments Created {Timestamp}.
Arguments Text {Timestamp}.

Abbreviation run_Message d :=
  (Unmarshal (Message_value string "" literalTimestamp) d (new_Message string))
  (only parsing).

(** X2 at the scenario of the spec: two items out of three children. *)
Lemma buckets_share_no_child_witness :
  let r := run_UnmarshalJSON (Some (JArray [comment_c1; message_m1; unknown_t9]))
             (mkInboxThings Nil Nil) in
  len (inboxThings_Comments r.1) + len (inboxThings_Messages r.1) <= 3.
Proof.
  intros r.
  exact (proj2 (buckets_share_no_child string "" literalTimestamp
                  (mkInboxThings Nil Nil) [comment_c1; message_m1; unknown_t9]
                  _ eq_refl)).
Defined.

(** X3 at a page cut in two. *)
Lemma buckets_of_concatenation_witness :
  let t := mkInboxThings Nil Nil in
  let r := run_UnmarshalJSON
             (Some (JArray ([comment_c1] ++ [message_m1; comment_without_flag]))) t in
  elements (inboxThings_Comments r.1) =
    elements (inboxThings_Comments (run_UnmarshalJSON (Some (JArray [comment_c1])) t).1) ++
    elements (inboxThings_Comments
                (run_UnmarshalJSON (Some (JArray [message_m1; comment_without_flag])) t).1).
Proof.
  intros t r.
  destruct (buckets_of_concatenation string "" literalTimestamp t
              [comment_c1] [message_m1; comment_without_flag] _ eq_refl)
    as (_ & _ & H & _).
  exact H.
Defined.

(** X4 at a comment with a null payload after a valid comment. *)
Lemma null_payload_is_a_blank_item_witness :
  let r := run_UnmarshalJSON (Some (JArray [comment_c1; comment_null_payload]))
             (mkInboxThings Nil Nil) in
  elements (inboxThings_Comments r.1) = [item "c1" true; item "" false].
Proof.
  intros r.
  destruct (null_payload_is_a_blank_item string "" literalTimestamp
              (mkInboxThings Nil Nil) [comment_c1] comment_null_payload []
              (mkThing "t1" (Some JNull)) _ eq_refl eq_refl) as (H & _ & _).
  exact (H eq_refl eq_refl).
Defined.

(** X5 at a payload whose id is a number. *)
Lemma ill_typed_payload_drops_the_item_witness :
  (exists err, run_Message (Some payload_number_id) = inr err) /\
  route string "" literalTimestamp (mkInboxThings (Make []) (Make []))
    (mkThing kindMessage (Some payload_number_id)) = mkInboxThings (Make []) (Make []).
Proof.
  destruct (ill_typed_payload_drops_the_item string "" literalTimestamp
              (Some payload_number_id)) as [Herr Hroute].
  - right. right.
    exists [("id", JNumber "7"); ("body", JString "hello")], "id", (JNumber "7").
    split; [reflexivity|]. split; [left|].
    left. split; [|reflexivity]. apply Exists_cons_hd. reflexivity.
  - split; [exact Herr|]. apply Hroute.
Defined.

(** X6 at a payload with an id, a name and a body. *)
Lemma Message_fields_follow_their_tags_witness :
  let v := mkMessage "m1" "t4_m1" (Some "1577836800") "" "hello" "" "" "" false in
  run_Message (Some payload_created) = inl v /\
  ID v = "m1" /\ FullID v = "t4_m1" /\ Text v = "hello".
Proof.
  intros v.
  destruct (Message_fields_follow_their_tags string "" literalTimestamp
              (Some payload_created) v eq_refl) as (Hset & _ & _).
  split; [reflexivity|]. split; [|split].
  - destruct (Hset [] "id" "m1"
                [("name", JString "t4_m1"); ("created_utc", JNumber "1577836800");
                 ("body", JString "hello")] eq_refl) as (H & _).
    apply H; [reflexivity|repeat constructor].
  - destruct (Hset [("id", JString "m1")] "name" "t4_m1"
                [("created_utc", JNumber "1577836800"); ("body", JString "hello")]
                eq_refl) as (_ & H & _).
    apply H; [reflexivity|repeat constructor].
  - destruct (Hset [("id", JString "m1"); ("name", JString "t4_m1");
                    ("created_utc", JNumber "1577836800")] "body" "hello" []
                eq_refl) as (_ & _ & _ & H & _).
    apply H; [reflexivity|repeat constructor].
Defined.

(** X7 at the same payload: the creation time is the text of the number. *)
Lemma created_utc_goes_through_Timestamp_witness :
  let v := mkMessage "m1" "t4_m1" (Some "1577836800") "" "hello" "" "" "" false in
  run_Message (Some payload_created) = inl v /\
  Created v = Some "1577836800".
Proof.
  intros v. split; [reflexivity|].
  destruct (created_utc_goes_through_Timestamp string "" literalTimestamp
              [("id", JString "m1"); ("name", JString "t4_m1")]
              "created_utc" (JNumber "1577836800") [("body", JString "hello")]
              eq_refl ltac:(repeat constructor) ltac:(repeat constructor)
              ltac:(discriminate)) as (H & _).
  exact (proj2 (H v eq_refl)).
Defined.

(** X9 at two ids. *)
Lemma joined_ids_determine_the_ids_witness :
  strings_Join ["t4_a"; "t4_b"] "," = "t4_a,t4_b" /\
  ["t4_a"; "t4_b"] = ["t4_a"; "t4_b"].
Proof.
  split; [reflexivity|].
  apply joined_ids_determine_the_ids;
    [discriminate|discriminate|repeat constructor|repeat constructor|reflexivity].
Defined.

(** X13 at the scenario of the spec, through the canned client. *)
Lemma Inbox_returns_both_views_witness :
  let body := Some (listing (JArray [comment_c1; message_m1; unknown_t9]) "next1" "") in
  (MessageService_Inbox string "" literalTimestamp string text unit
     canned_buildRequest (canned_sendRequest body) canned_Body canned_addOptions
     tt []).1 =
  (Some (mkMessages (Make [item "c1" true]) "next1" ""),
   Some (mkMessages (Make [item "m1" false]) "next1" ""),
   Some body, None).
Proof.
  intros body.
  destruct (Inbox_returns_both_views string "" literalTimestamp string text unit
              canned_buildRequest (canned_sendRequest body) canned_Body
              canned_addOptions tt [] body [comment_c1; message_m1; unknown_t9]
              "next1" "" _ eq_refl eq_refl) as [H _].
  apply H. exists "message/inbox", "message/inbox". repeat split.
Defined.

(** X14 at the scenario of the spec, through the canned client. *)
Lemma Sent_returns_the_messages_only_witness :
  let body := Some (listing (JArray [comment_c1; message_m1; unknown_t9]) "next1" "") in
  (MessageService_Sent string "" literalTimestamp string text unit
     canned_buildRequest (canned_sendRequest body) canned_Body canned_addOptions
     tt []).1 =
  (Some (mkMessages (Make [item "m1" false]) "next1" ""), Some body, None).
Proof.
  intros body.
  apply (Sent_returns_the_messages_only string "" literalTimestamp string text unit
           canned_buildRequest (canned_sendRequest body) canned_Body
           canned_addOptions tt [] body [comment_c1; message_m1; unknown_t9]
           "next1" "" (Make [mkThing "t1" (Some (JObject [("id", JString "c1");
                                                          ("was_comment", JBool true)]));
                             mkThing "t4" (Some (JObject [("id", JString "m1");
                                                          ("was_comment", JBool false)]));
                             mkThing "t9" (Some (JObject []))])).
  - exists "message/sent", "message/sent". repeat split.
  - reflexivity.
  - reflexivity.
Defined.

(** X16 at an envelope whose after is null: the cursor is empty. *)
Lemma null_cursor_is_no_cursor_witness :
  run_decode (Some envelope_null_after) =
    run_decode (Some (JObject [("kind", JString "Listing");
                               ("data", JObject [("children", JArray [comment_c1]);
                                                 ("before", JString "")])])) /\
  run_decode (Some envelope_null_after) =
    inl (mkRootInboxListing "Listing"
           (mkInboxListing (mkInboxThings (Make [item "c1" true]) (Make [])) "" "")).
Proof.
  split; [|reflexivity].
  exact (null_cursor_is_no_cursor string "" literalTimestamp
           [("kind", JString "Listing")] "data"
           [("children", JArray [comment_c1])] "after" [("before", JString "")] []
           eq_refl).
Defined.

(** X17 at a page with a number among its children. *)
Lemma misshaped_child_fails_Inbox_witness :
  let body := Some (listing (JArray [comment_c1; JNumber "1"]) "" "") in
  exists err,
    (MessageService_Inbox string "" literalTimestamp string text unit
       canned_buildRequest (canned_sendRequest body) canned_Body canned_addOptions
       tt []).1 = (None, None, None, Some err).
Proof.
  intros body.
  apply (misshaped_child_fails_Inbox string "" literalTimestamp string text unit
           canned_buildRequest (canned_sendRequest body) canned_Body canned_addOptions
           tt [] [comment_c1; JNumber "1"] "" "").
  - intros req resp [= <-]. reflexivity.
  - intros H. apply Forall_cons in H as [_ H]. apply Forall_cons in H as [H _]. exact H.
Defined.
